(** * Chatbox: the client-side synchronisation layer

    A shallow embedding of the parts of the repository that decide how the
    chat client keeps its local state in step with the backend:

    - [src/components/ChatWindow.tsx]: conversation lookup-or-create
      ([initChat]), the push-insert merge and the optimistic send
      ([handleSend]);
    - [src/context/AuthContext.tsx]: the profile cache ([fetchProfile]),
      the session bootstrap effect with its safety timer, and [signOut];
    - [supabase/migrations/..._create_chat_schema.sql]: the [conversations]
      table with its constraints and the [normalize_conversation_users]
      trigger.

    React state is a record, every [setX] call is a record update, and an
    [await] is a cut between two functions: whatever other tasks do while
    the operation is suspended is an explicit argument. *)

From stdpp Require Import base option list sorting gmap strings pretty.
From Stdlib Require Import NArith Ascii.

Local Open Scope N_scope.

(** ** JavaScript strings *)

(** A JavaScript string is a sequence of UTF-16 code units. *)
Module Js.

Abbreviation jsstring := (list N).

(** A literal of the source text, as code units. *)
Definition lit (s : string) : jsstring :=
  N_of_ascii <$> String.list_ascii_of_string s.

(** ECMAScript [WhiteSpace] and [LineTerminator] code points: what
    [String.prototype.trim] strips. All of them lie in the basic plane, so
    the test is on single code units. *)
Definition isWhiteSpace (c : N) : bool :=
  ((9 <=? c) && (c <=? 13))          (* TAB, LF, VT, FF, CR *)
  || (c =? 32)                       (* SP *)
  || (c =? 160)                      (* NBSP *)
  || (c =? 5760)                     (* U+1680 *)
  || ((8192 <=? c) && (c <=? 8202))  (* U+2000 .. U+200A *)
  || (c =? 8232) || (c =? 8233)      (* LS, PS *)
  || (c =? 8239)                     (* U+202F *)
  || (c =? 8287)                     (* U+205F *)
  || (c =? 12288)                    (* U+3000 *)
  || (c =? 65279).                   (* U+FEFF *)

Fixpoint trimStart (s : jsstring) : jsstring :=
  match s with
  | c :: s' => if isWhiteSpace c then trimStart s' else s
  | [] => []
  end.

Definition trimEnd (s : jsstring) : jsstring :=
  reverse (trimStart (reverse s)).

(** [s.trim()] *)
Definition trim (s : jsstring) : jsstring := trimEnd (trimStart s).

(** The text neither starts nor ends with white space. *)
Definition no_outer_space (s : jsstring) : Prop :=
  (∀ c, head s = Some c → isWhiteSpace c = false)
  ∧ (∀ c, last s = Some c → isWhiteSpace c = false).

(** Truthiness of a string value: [""] is falsy. *)
Definition truthy (s : jsstring) : bool :=
  match s with [] => false | _ => true end.

(** [a || b] on values that are a string or [null]/[undefined]. *)
Definition or_else (a : option jsstring) (b : option jsstring) : option jsstring :=
  match a with
  | Some s => if truthy s then a else b
  | None => b
  end.

(** [s.split('@')[0]]: the text before the first [@], all of [s] when it
    has none. *)
Fixpoint beforeAt (s : jsstring) : jsstring :=
  match s with
  | c :: s' => if c =? 64 then [] else c :: beforeAt s'
  | [] => []
  end.

End Js.

Import Js.

(** ** Rows *)

(** Columns of type [uuid] are kept as their 128-bit value; PostgreSQL
    orders them as unsigned numbers. *)
Abbreviation uuid := N.

(** Instants ([timestamptz] columns, [Date.now()], ISO time stamps) are
    milliseconds on one time line. *)
Abbreviation instant := N.

(** A message as the client holds it. The id is text: the server's ids
    are uuids in text form, the client's own placeholders are
    [temp-<milliseconds>]. *)
Module Message.
Record t : Type := mk {
  id : jsstring;
  conversation_id : uuid;
  sender_id : uuid;
  content : jsstring;
  created_at : instant
}.
#[global] Instance message_eq_dec : EqDecision t.
Proof. solve_decision. Defined.
End Message.

Module Profile.
Record t : Type := mk {
  id : uuid;
  user_id : uuid;
  username : jsstring;
  email : jsstring;
  created_at : instant
}.
#[global] Instance profile_eq_dec : EqDecision t.
Proof. solve_decision. Defined.
End Profile.

(** A row of [profiles] as it comes back in a JSON reply: the client
    guards every text column against [null]. *)
Module ProfileRow.
Record t : Type := mk {
  id : uuid;
  user_id : uuid;
  username : option jsstring;
  email : option jsstring;
  created_at : option instant
}.
End ProfileRow.

Module Conversation.
Record t : Type := mk {
  id : uuid;
  user1_id : uuid;
  user2_id : uuid
}.
#[global] Instance conversation_eq_dec : EqDecision t.
Proof. solve_decision. Defined.
End Conversation.

(** ** The schema: tables, constraints and the normalising trigger *)

Module Schema.

Record DB : Type := mkDB {
  profiles : list ProfileRow.t;
  conversations : list Conversation.t;
  messages : list Message.t
}.

(** SQLSTATE classes the [conversations] insert can end in. *)
Inductive PgError : Type :=
  | check_violation          (* 23514: different_users *)
  | unique_violation         (* 23505: primary key, unique_conversation_pair *)
  | foreign_key_violation.   (* 23503: REFERENCES profiles(id) *)

#[global] Instance PgError_eq_dec : EqDecision PgError.
Proof. solve_decision. Defined.

(** [normalize_conversation_users()], the BEFORE INSERT row trigger:
    swaps the two user columns when [user1_id > user2_id]. *)
Definition normalize_conversation_users (NEW : Conversation.t) : Conversation.t :=
  if Conversation.user2_id NEW <? Conversation.user1_id NEW
  then Conversation.mk (Conversation.id NEW)
                       (Conversation.user2_id NEW)
                       (Conversation.user1_id NEW)
  else NEW.

Definition profile_ids (db : DB) : list uuid := ProfileRow.id <$> profiles db.

Definition same_pair (c d : Conversation.t) : Prop :=
  Conversation.user1_id c = Conversation.user1_id d
  ∧ Conversation.user2_id c = Conversation.user2_id d.

#[global] Instance same_pair_dec c d : Decision (same_pair c d).
Proof. unfold same_pair. apply _. Defined.

(** [INSERT INTO conversations (user1_id, user2_id) VALUES (u1, u2)
    RETURNING id]. [g] is the value [gen_random_uuid()] draws for the
    [id] column. The trigger runs first; then [different_users], the
    primary key, [unique_conversation_pair] and the two foreign keys are
    checked on the row the trigger returned. This is the insert past the
    row-level policy, as a caller whom the policy lets through gets it
    answered; the policy itself is put in front of it further down. *)
Definition insert_conversation (g u1 u2 : uuid) (db : DB)
  : PgError + (uuid * DB) :=
  let NEW := normalize_conversation_users (Conversation.mk g u1 u2) in
  if bool_decide (Conversation.user1_id NEW = Conversation.user2_id NEW)
  then inl check_violation
  else if bool_decide (g ∈ Conversation.id <$> conversations db)
  then inl unique_violation
  else if bool_decide (Exists (same_pair NEW) (conversations db))
  then inl unique_violation
  else if bool_decide (Conversation.user1_id NEW ∈ profile_ids db
                       ∧ Conversation.user2_id NEW ∈ profile_ids db)
  then inr (Conversation.id NEW,
            mkDB (profiles db) (conversations db ++ [NEW]) (messages db))
  else inl foreign_key_violation.

(** The filter of the lookup,
    [or(and(user1_id.eq.a,user2_id.eq.b),and(user1_id.eq.b,user2_id.eq.a))]. *)
Definition either_order (a b : uuid) (c : Conversation.t) : Prop :=
  (Conversation.user1_id c = a ∧ Conversation.user2_id c = b)
  ∨ (Conversation.user1_id c = b ∧ Conversation.user2_id c = a).

#[global] Instance either_order_dec a b c : Decision (either_order a b c).
Proof. unfold either_order. apply _. Defined.

(** [from('conversations').select('id').or(...).limit(1)]. The query has
    no ORDER BY: the table is scanned in stored order. *)
Definition select_conversation (a b : uuid) (db : DB) : list uuid :=
  take 1 (Conversation.id <$> filter (either_order a b) (conversations db)).

Definition created_le (m1 m2 : Message.t) : Prop :=
  (Message.created_at m1 <= Message.created_at m2)%N.

#[global] Instance created_le_dec m1 m2 : Decision (created_le m1 m2).
Proof. unfold created_le. apply _. Defined.

(** [from('messages').select(...).eq('conversation_id', convId)
    .order('created_at', { ascending: true }).limit(100)] *)
Definition select_messages (convId : uuid) (db : DB) : list Message.t :=
  take 100
    (merge_sort created_le
       (filter (λ m, Message.conversation_id m = convId) (messages db))).

(** What the constraints maintain on [conversations]: every row is in
    trigger order with two different users, and neither an id nor a pair
    occurs twice. *)
Definition ordered_row (c : Conversation.t) : Prop :=
  (Conversation.user1_id c < Conversation.user2_id c)%N.

Definition pair_of (c : Conversation.t) : uuid * uuid :=
  (Conversation.user1_id c, Conversation.user2_id c).

Definition consistent (db : DB) : Prop :=
  Forall ordered_row (conversations db)
  ∧ NoDup (pair_of <$> conversations db)
  ∧ NoDup (Conversation.id <$> conversations db).

#[global] Instance consistent_dec db : Decision (consistent db).
Proof. unfold consistent, ordered_row. apply _. Defined.

(** *** Row-level security *)

(** [SELECT id FROM profiles WHERE user_id = auth.uid()], for the caller
    [uid]. *)
Definition own_profiles (uid : uuid) (db : DB) : list uuid :=
  ProfileRow.id <$> filter (λ r, ProfileRow.user_id r = uid) (profiles db).

(** The expression shared by [conversations_select_own] (USING),
    [conversations_insert_own] (WITH CHECK) and [conversations_update_own]
    (USING). *)
Definition conversations_own (uid : uuid) (db : DB) (c : Conversation.t) : Prop :=
  Conversation.user1_id c ∈ own_profiles uid db
  ∨ Conversation.user2_id c ∈ own_profiles uid db.

#[global] Instance conversations_own_dec uid db c :
  Decision (conversations_own uid db c).
Proof. unfold conversations_own. apply _. Defined.

(** The conversations the caller's policies let it see. *)
Definition own_conversations (uid : uuid) (db : DB) : list uuid :=
  Conversation.id <$> filter (conversations_own uid db) (conversations db).

(** [messages_select_own], USING. *)
Definition messages_select_own (uid : uuid) (db : DB) (m : Message.t) : Prop :=
  Message.conversation_id m ∈ own_conversations uid db.

#[global] Instance messages_select_own_dec uid db m :
  Decision (messages_select_own uid db m).
Proof. unfold messages_select_own. apply _. Defined.

(** [messages_insert_own], WITH CHECK. *)
Definition messages_insert_own (uid : uuid) (db : DB) (m : Message.t) : Prop :=
  Message.conversation_id m ∈ own_conversations uid db
  ∧ Message.sender_id m ∈ own_profiles uid db.

#[global] Instance messages_insert_own_dec uid db m :
  Decision (messages_insert_own uid db m).
Proof. unfold messages_insert_own, messages_select_own. apply _. Defined.



(** The conversation lookup as the caller [uid] gets it answered: the
    SELECT policy is applied to the rows before the filter and the limit. *)
Definition select_conversation_as (uid a b : uuid) (db : DB) : list uuid :=
  take 1 (Conversation.id
            <$> filter (either_order a b)
                  (filter (conversations_own uid db) (conversations db))).

(** The page query as the caller [uid] gets it answered. *)
Definition select_messages_as (uid convId : uuid) (db : DB) : list Message.t :=
  take 100
    (merge_sort created_le
       (filter (λ m, Message.conversation_id m = convId)
          (filter (messages_select_own uid db) (messages db)))).

(** *** Profile provisioning *)

(** A row of [auth.users], as far as the trigger reads it:
    [raw_user_meta_data->>'username'] is kept as a column of its own. *)
Record AuthUser : Type := mkAuthUser {
  au_id : uuid;
  au_email : option jsstring;
  au_meta_username : option jsstring
}.

(** SQLSTATE classes the [profiles] insert can end in. *)
Inductive ProfileError : Type :=
  | not_null_violation          (* 23502 *)
  | profile_unique_violation.   (* 23505 *)

(** One lower-case hexadecimal digit. *)
Definition hex_digit (d : N) : N := if d <? 10 then 48 + d else 87 + d.

(** [substring(NEW.id::text, 1, 8)]: the text of a uuid starts with the
    eight hexadecimal digits of its top 32 bits. *)
Definition uuid_text_prefix8 (u : uuid) : jsstring :=
  (λ i, hex_digit ((u / 16 ^ i) mod 16)) <$> [31; 30; 29; 28; 27; 26; 25; 24].

(** [u::text], the form in which a [uuid] column reaches the client:
    32 lower-case hexadecimal digits in groups of 8, 4, 4, 4 and 12. *)
Definition uuid_text (u : uuid) : jsstring :=
  let h := λ i, hex_digit ((u / 16 ^ i) mod 16) in
  (h <$> [31; 30; 29; 28; 27; 26; 25; 24]) ++ [45]
  ++ (h <$> [23; 22; 21; 20]) ++ [45]
  ++ (h <$> [19; 18; 17; 16]) ++ [45]
  ++ (h <$> [15; 14; 13; 12]) ++ [45]
  ++ (h <$> [11; 10; 9; 8; 7; 6; 5; 4; 3; 2; 1; 0]).

(** [INSERT INTO public.profiles (user_id, email, username) VALUES (...)]:
    [g] is the [id] that [gen_random_uuid()] draws, [now] the default of
    [created_at]. NOT NULL on [username] and [email], the primary key and
    the three UNIQUE columns are checked. *)
Definition insert_profile (g : uuid) (now : instant) (user_id : uuid)
    (email username : option jsstring) (db : DB) : ProfileError + DB :=
  match email, username with
  | Some e, Some u =>
      if bool_decide (g ∈ ProfileRow.id <$> profiles db)
      then inl profile_unique_violation
      else if bool_decide (user_id ∈ ProfileRow.user_id <$> profiles db)
      then inl profile_unique_violation
      else if bool_decide (Some u ∈ ProfileRow.username <$> profiles db)
      then inl profile_unique_violation
      else if bool_decide (Some e ∈ ProfileRow.email <$> profiles db)
      then inl profile_unique_violation
      else inr (mkDB
                  (profiles db
                     ++ [ProfileRow.mk g user_id (Some u) (Some e) (Some now)])
                  (conversations db) (messages db))
  | _, _ => inl not_null_violation
  end.

(** [handle_new_user()], the AFTER INSERT row trigger on [auth.users]. *)
Definition handle_new_user (NEW : AuthUser) (g : uuid) (now : instant)
    (db : DB) : ProfileError + DB :=
  insert_profile g now (au_id NEW) (au_email NEW)
    (Some (default (lit "user_" ++ uuid_text_prefix8 (au_id NEW))
             (au_meta_username NEW)))
    db.

(** What the constraints maintain on [profiles]. *)
Definition profiles_consistent (db : DB) : Prop :=
  NoDup (ProfileRow.id <$> profiles db)
  ∧ NoDup (ProfileRow.user_id <$> profiles db)
  ∧ NoDup (ProfileRow.username <$> profiles db)
  ∧ NoDup (ProfileRow.email <$> profiles db)
  ∧ Forall (λ r, is_Some (ProfileRow.username r) ∧ is_Some (ProfileRow.email r))
      (profiles db).

(** [REFERENCES profiles(id)] on both user columns of [conversations]. *)
Definition references_profiles (db : DB) : Prop :=
  Forall (λ c, Conversation.user1_id c ∈ profile_ids db
               ∧ Conversation.user2_id c ∈ profile_ids db)
    (conversations db).

End Schema.

(** ** [ChatWindow]: conversation lookup-or-create, message stream, send *)

Module ChatWindow.

Import Schema.

(** The component's [useState] cells and [useRef] boxes. [channelRef]
    holds the conversation the open channel is filtered on; [console]
    collects what [console.error] was given. *)
Record State : Type := mkState {
  messages : list Message.t;
  newMessage : jsstring;
  loading : bool;
  sending : bool;
  conversationIdRef : option uuid;
  channelRef : option uuid;
  hasInitialized : bool;
  console : list (option PgError)
}.

(** The state of a freshly mounted component. *)
Definition initial : State :=
  mkState [] [] true false None None false [].

Definition setMessages (f : list Message.t → list Message.t) (st : State) : State :=
  mkState (f (messages st)) (newMessage st) (loading st) (sending st)
    (conversationIdRef st) (channelRef st) (hasInitialized st) (console st).

Definition setNewMessage (s : jsstring) (st : State) : State :=
  mkState (messages st) s (loading st) (sending st)
    (conversationIdRef st) (channelRef st) (hasInitialized st) (console st).

Definition setLoading (b : bool) (st : State) : State :=
  mkState (messages st) (newMessage st) b (sending st)
    (conversationIdRef st) (channelRef st) (hasInitialized st) (console st).

Definition setSending (b : bool) (st : State) : State :=
  mkState (messages st) (newMessage st) (loading st) b
    (conversationIdRef st) (channelRef st) (hasInitialized st) (console st).

Definition setConversationId (c : option uuid) (st : State) : State :=
  mkState (messages st) (newMessage st) (loading st) (sending st)
    c (channelRef st) (hasInitialized st) (console st).

Definition setChannel (c : option uuid) (st : State) : State :=
  mkState (messages st) (newMessage st) (loading st) (sending st)
    (conversationIdRef st) c (hasInitialized st) (console st).

Definition setHasInitialized (b : bool) (st : State) : State :=
  mkState (messages st) (newMessage st) (loading st) (sending st)
    (conversationIdRef st) (channelRef st) b (console st).

Definition console_error (e : option PgError) (st : State) : State :=
  mkState (messages st) (newMessage st) (loading st) (sending st)
    (conversationIdRef st) (channelRef st) (hasInitialized st)
    (console st ++ [e]).

(** *** The push-insert merge *)

(** [prev.some(m => m.id === newMsg.id)] *)
Definition has_id (i : jsstring) (prev : list Message.t) : bool :=
  existsb (λ m, bool_decide (Message.id m = i)) prev.

(** The updater the subscription callback hands to [setMessages]:
    [prev => prev.some(m => m.id === newMsg.id) ? prev : [...prev, newMsg]] *)
Definition mergeInsert (newMsg : Message.t) (prev : list Message.t) : list Message.t :=
  if has_id (Message.id newMsg) prev then prev else prev ++ [newMsg].

(** One INSERT notification arriving on the channel. The server applies
    the channel's filter [conversation_id=eq.<convId>]; without an open
    channel nothing arrives. *)
Definition onInsert (newMsg : Message.t) (st : State) : State :=
  match channelRef st with
  | Some convId =>
      if bool_decide (Message.conversation_id newMsg = convId)
      then setMessages (mergeInsert newMsg) st
      else st
  | None => st
  end.

(** A run of notifications, in arrival order. *)
Definition onInserts (pushed : list Message.t) (st : State) : State :=
  foldl (λ s m, onInsert m s) st pushed.

(** *** [initChat] *)

(** [initChat], for the acting profile [me] and the selected user
    [other], run against the database [db]. The function is suspended at
    its awaits; [rivals] is what other clients commit between the lookup
    and the insert, [later] what they commit between the resolution and
    the page load. [g] is the id the database would give a new row. The
    result is the database after the run and the component's state. *)
Definition initChat (me other : uuid) (g : uuid) (rivals later : DB → DB)
    (db : DB) (st : State) : DB * State :=
  let convs := select_conversation me other db in
  let resolved : PgError + (uuid * DB) :=
    match convs with
    | c :: _ => inr (c, db)
    | [] => insert_conversation g me other (rivals db)
    end in
  match resolved with
  | inl error =>
      (* if (error) throw error; ... catch: console.error, setLoading(false) *)
      (rivals db, setLoading false (console_error (Some error) st))
  | inr (convId, db1) =>
      let db2 := later db1 in
      let msgs := select_messages convId db2 in
      (db2,
       setLoading false
         (setChannel (Some convId)
            (setMessages (λ _, msgs)
               (setConversationId (Some convId) st))))
  end.

(** The effect that starts [initChat]: it does nothing without a profile
    or when the guard ref is already set. *)
Definition initEffect (profile : option Profile.t) (otherUser : Profile.t)
    (g : uuid) (rivals later : DB → DB) (db : DB) (st : State) : DB * State :=
  match profile with
  | Some p =>
      if hasInitialized st then (db, st)
      else initChat (Profile.id p) (Profile.id otherUser) g rivals later db
             (setHasInitialized true st)
  | None => (db, st)
  end.

(** *** [handleSend] *)

(** [`temp-${Date.now()}`] *)
Definition temp_id (now : instant) : jsstring :=
  lit "temp-" ++ lit (pretty now).

(** How the awaited insert ended: the row the server stored, or an error
    (a reply carrying [error], or a rejected request). *)
Inductive InsertOutcome : Type :=
  | Inserted (data : Message.t)
  | Failed.

(** What the suspended call keeps in its closure across the await. *)
Record Pending : Type := mkPending {
  tempMsg : Message.t;
  content : jsstring
}.

(** [handleSend] up to the await. The block reads the clock twice: [now]
    is what [Date.now()] gives for the placeholder's id, [stamp] what
    [new Date()] gives for its [created_at]. [None]: the guard returned
    early and nothing was touched. *)
Definition handleSend_submit (profile : option Profile.t) (now stamp : instant)
    (st : State) : option (Pending * State) :=
  let content := trim (newMessage st) in
  match conversationIdRef st, profile with
  | Some convId, Some p =>
      if negb (truthy content) || sending st then None
      else
        let tempMsg :=
          Message.mk (temp_id now) convId (Profile.id p) content stamp in
        Some (mkPending tempMsg content,
              setSending true
                (setNewMessage []
                   (setMessages (λ prev, prev ++ [tempMsg]) st)))
  | _, _ => None
  end.

(** [prev.map(m => m.id === tempMsg.id ? data : m)] *)
Definition reconcile (tempId : jsstring) (data : Message.t)
    (prev : list Message.t) : list Message.t :=
  (λ m, if bool_decide (Message.id m = tempId) then data else m) <$> prev.

(** [prev.filter(m => m.id !== tempMsg.id)] *)
Definition rollback (tempId : jsstring) (prev : list Message.t) : list Message.t :=
  filter (λ m, Message.id m ≠ tempId) prev.

(** [handleSend] from the await on: the try/catch/finally. *)
Definition handleSend_settle (p : Pending) (r : InsertOutcome) (st : State) : State :=
  let st1 :=
    match r with
    | Inserted data =>
        setMessages (reconcile (Message.id (tempMsg p)) data) st
    | Failed =>
        setNewMessage (content p)
          (setMessages (rollback (Message.id (tempMsg p)))
             (console_error None st))
    end in
  setSending false st1.

(** One whole call of [handleSend]: [pushed] are the notifications that
    arrive while the insert is in flight. *)
Definition handleSend (profile : option Profile.t) (now stamp : instant)
    (pushed : list Message.t) (r : InsertOutcome) (st : State) : State :=
  match handleSend_submit profile now stamp st with
  | Some (p, st1) => handleSend_settle p r (onInserts pushed st1)
  | None => st
  end.

(** The visible sequence is in time order. *)
Definition chronological (l : list Message.t) : Prop :=
  Sorted created_le l.

(** A notification is absorbed when the channel's filter keeps it out or
    a message with its id is held. *)
Definition absorbed (p : Message.t) (st : State) : Prop :=
  channelRef st ≠ Some (Message.conversation_id p)
  ∨ has_id (Message.id p) (messages st) = true.

(** The [disabled] prop of the submit button:
    [!newMessage.trim() || sending]. *)
Definition sendDisabled (st : State) : bool :=
  negb (truthy (trim (newMessage st))) || sending st.

(** The cleanup of the effect: [channelRef.current?.unsubscribe()] closes
    the channel, and the guard ref is reset. *)
Definition initCleanup (st : State) : State :=
  setHasInitialized false (setChannel None st).

End ChatWindow.

(** ** [AuthContext]: profile cache, session bootstrap, sign-out *)

Module User.
Record t : Type := mk {
  id : uuid;
  email : jsstring;
  username : jsstring
}.
End User.

(** The [user] object of a session: [email] may be missing. *)
Module SessionUser.
Record t : Type := mk {
  id : uuid;
  email : option jsstring
}.
End SessionUser.

Module AuthContext.

(** The settled value of [from('profiles').select(...).eq('user_id',
    userId).single()]: a [{ data, error }] pair, [error] given by its
    [code]; or the request rejected. *)
Record Reply : Type := mkReply {
  data : option ProfileRow.t;
  error : option jsstring
}.

Inductive Settled : Type :=
  | Resolved (r : Reply)
  | Rejected.

(** What [console.error] was called for. *)
Inductive Logged : Type :=
  | ErrorFetchingProfile
  | ErrorInitializingAuth
  | ErrorSettingUpListener.

(** The provider's [useState] cells and [useRef] boxes, and what it
    holds of the runtime: [timer] is the armed safety timer, as the id
    [setTimeout] returned and the instant it is due, [nextTimerId] the id
    the next [setTimeout] returns; [listener] tells whether the auth
    listener is registered; [fetches] lists the user ids the backend was
    asked for, oldest first. *)
Record State : Type := mkState {
  user : option User.t;
  profile : option Profile.t;
  loading : bool;
  profileCache : gmap uuid Profile.t;
  sessionChecked : bool;
  timer : option (N * instant);
  nextTimerId : N;
  listener : bool;
  fetches : list uuid;
  console : list Logged
}.

Definition initial : State :=
  mkState None None true ∅ false None 1 false [] [].

Definition setUser (u : option User.t) (st : State) : State :=
  mkState u (profile st) (loading st) (profileCache st) (sessionChecked st)
    (timer st) (nextTimerId st) (listener st) (fetches st) (console st).

Definition setProfile (p : option Profile.t) (st : State) : State :=
  mkState (user st) p (loading st) (profileCache st) (sessionChecked st)
    (timer st) (nextTimerId st) (listener st) (fetches st) (console st).

Definition setLoading (b : bool) (st : State) : State :=
  mkState (user st) (profile st) b (profileCache st) (sessionChecked st)
    (timer st) (nextTimerId st) (listener st) (fetches st) (console st).

Definition setProfileCache (c : gmap uuid Profile.t) (st : State) : State :=
  mkState (user st) (profile st) (loading st) c (sessionChecked st)
    (timer st) (nextTimerId st) (listener st) (fetches st) (console st).

Definition setSessionChecked (b : bool) (st : State) : State :=
  mkState (user st) (profile st) (loading st) (profileCache st) b
    (timer st) (nextTimerId st) (listener st) (fetches st) (console st).

(** [setTimeout(cb, delay)] at [now]: arms the timer under a new id. *)
Definition set_timeout (now delay : N) (st : State) : State :=
  mkState (user st) (profile st) (loading st) (profileCache st)
    (sessionChecked st) (Some (nextTimerId st, now + delay))
    (nextTimerId st + 1) (listener st) (fetches st) (console st).

Definition disarm (st : State) : State :=
  mkState (user st) (profile st) (loading st) (profileCache st)
    (sessionChecked st) None (nextTimerId st) (listener st) (fetches st)
    (console st).

(** [clearTimeout(timeoutId)]: nothing happens unless the timer of that
    id is still armed. *)
Definition clearTimeout (timeoutId : N) (st : State) : State :=
  match timer st with
  | Some (i, _) => if i =? timeoutId then disarm st else st
  | None => st
  end.

Definition setListener (b : bool) (st : State) : State :=
  mkState (user st) (profile st) (loading st) (profileCache st)
    (sessionChecked st) (timer st) (nextTimerId st) b (fetches st) (console st).

Definition request (userId : uuid) (st : State) : State :=
  mkState (user st) (profile st) (loading st) (profileCache st)
    (sessionChecked st) (timer st) (nextTimerId st) (listener st)
    (fetches st ++ [userId]) (console st).

Definition console_error (e : Logged) (st : State) : State :=
  mkState (user st) (profile st) (loading st) (profileCache st)
    (sessionChecked st) (timer st) (nextTimerId st) (listener st) (fetches st)
    (console st ++ [e]).

(** [a || b] with a last operand that is always a string. *)
Definition or_default (a : option jsstring) (b : jsstring) : jsstring :=
  default b (or_else a (Some b)).

(** The [formattedProfile] literal of [fetchProfile]. *)
Definition formatProfile (d : ProfileRow.t) (now : instant) : Profile.t :=
  Profile.mk
    (ProfileRow.id d)
    (ProfileRow.user_id d)
    (or_default
       (or_else (ProfileRow.username d) (beforeAt <$> ProfileRow.email d))
       (lit "User"))
    (or_default (ProfileRow.email d) [])
    (default now (ProfileRow.created_at d)).

(** ['PGRST116'], the code of "no rows" from [.single()]. *)
Definition PGRST116 : jsstring := lit "PGRST116".

(** [error && error.code !== 'PGRST116'] *)
Definition throws (r : Reply) : bool :=
  match error r with
  | Some code => bool_decide (code ≠ PGRST116)
  | None => false
  end.

(** The profiles query answered from the table: [.single()] gives the
    row when exactly one matches and the error [PGRST116] otherwise. *)
Definition profiles_single (db : Schema.DB) (userId : uuid) : Settled :=
  match filter (λ d, ProfileRow.user_id d = userId) (Schema.profiles db) with
  | [d] => Resolved (mkReply (Some d) None)
  | _ => Resolved (mkReply None (Some PGRST116))
  end.

(** [fetchProfile(userId)]. [backend] is what the profiles query settles
    to for a user id; it is consulted, and the request recorded, only on
    the path that reaches the query. *)
Definition fetchProfile (backend : uuid → Settled) (now : instant)
    (userId : uuid) (st : State) : option Profile.t * State :=
  match profileCache st !! userId with
  | Some p => (Some p, st)
  | None =>
      let st := request userId st in
      match backend userId with
      | Rejected => (None, console_error ErrorFetchingProfile st)
      | Resolved r =>
          if throws r
          then (None, console_error ErrorFetchingProfile st)
          else
            match data r with
            | Some d =>
                let p := formatProfile d now in
                (Some p, setProfileCache (<[userId := p]> (profileCache st)) st)
            | None => (None, st)
            end
      end
  end.

(** [updateUserState(sessionUser)] *)
Definition updateUserState (backend : uuid → Settled) (now : instant)
    (sessionUser : SessionUser.t) (st : State) : State :=
  let '(profileData, st) := fetchProfile backend now (SessionUser.id sessionUser) st in
  let newUser :=
    User.mk (SessionUser.id sessionUser)
      (or_default (SessionUser.email sessionUser) [])
      (or_default
         (or_else (Profile.username <$> profileData)
                  (beforeAt <$> SessionUser.email sessionUser))
         (lit "User")) in
  let st := setUser (Some newUser) st in
  match profileData with
  | Some p => setProfile (Some p) st
  | None =>
      setProfile
        (Some (Profile.mk (SessionUser.id sessionUser) (SessionUser.id sessionUser)
                 (User.username newUser) (User.email newUser) now))
        st
  end.

(** An error of the auth client, given by its message. *)
Inductive AuthError : Type :=
  | mkAuthError (message : jsstring).

(** [signOut()]. [reply] is the [error] of [supabase.auth.signOut()];
    with an error the function throws it and touches nothing. *)
Definition signOut (reply : option AuthError) (st : State) : AuthError + State :=
  match reply with
  | Some err => inl err
  | None => inr (setProfileCache ∅ (setProfile None (setUser None st)))
  end.

(** *** The bootstrap effect and the event loop around it *)

(** The delay given to [setTimeout]. *)
Definition SAFETY_TIMEOUT : N := 2000.

(** What can happen to the mounted provider. A settled promise runs its
    continuation in one piece: the awaits inside [updateUserState] are not
    cut again. The listener does not await [updateUserState]; its update
    is applied together with the notification, so the states the code
    passes through in between, past loading with the user not yet
    published, are not separate states here. *)
Inductive Event : Type :=
  | Turn (now : instant)
      (* the event loop runs the timers that are due at [now] *)
  | SessionSettled (timeoutId : N) (now : instant)
      (session : option (option SessionUser.t)) (backend : uuid → Settled)
      (* [getSession()] settled for the run of the effect that armed the
         timer [timeoutId]: [None] rejected, [Some s] the session *)
  | AuthStateChange (now : instant) (session : option SessionUser.t)
      (backend : uuid → Settled)
      (* the auth listener is called *)
  | Cleanup (timeoutId : N).
      (* the cleanup of the run of the effect that armed [timeoutId] *)

(** The body of the effect, run at [now]: the guard, [setTimeout], the
    start of [initAuth] (suspended at once on [getSession()]) and the
    registration of the listener. [listenerThrows] is whether
    [onAuthStateChange] throws. *)
Definition bootstrapEffect (now : instant) (listenerThrows : bool)
    (st : State) : State :=
  if sessionChecked st then st
  else
    let st := setSessionChecked true st in
    let timeoutId := nextTimerId st in
    let st := set_timeout now SAFETY_TIMEOUT st in
    if listenerThrows
    then setLoading false
           (clearTimeout timeoutId (console_error ErrorSettingUpListener st))
    else setListener true st.

(** The timer callback, when the timer is armed and due. *)
Definition runTimers (now : instant) (st : State) : State :=
  match timer st with
  | Some (_, due) =>
      if due <=? now then setLoading false (disarm st) else st
  | None => st
  end.

Definition step (ev : Event) (st : State) : State :=
  match ev with
  | Turn now => runTimers now st
  | SessionSettled timeoutId now session backend =>
      (* initAuth after the await, then its finally block *)
      let st :=
        match session with
        | Some (Some u) => updateUserState backend now u st
        | Some None => st
        | None => console_error ErrorInitializingAuth st
        end in
      setLoading false (clearTimeout timeoutId st)
  | AuthStateChange now session backend =>
      if listener st then
        let st :=
          match session with
          | Some u => updateUserState backend now u st
          | None => setProfileCache ∅ (setProfile None (setUser None st))
          end in
        setLoading false st
      else st
  | Cleanup timeoutId =>
      setSessionChecked false (setListener false (clearTimeout timeoutId st))
  end.

Definition run (evs : list Event) (st : State) : State :=
  foldl (λ s ev, step ev s) st evs.

(** A backend that never responds: the only thing that happens is the
    event loop turning. *)
Definition silent (ev : Event) : Prop :=
  match ev with Turn _ => True | _ => False end.

(** The provider stays mounted: no cleanup runs. *)
Definition mounted (ev : Event) : Prop :=
  match ev with Cleanup _ => False | _ => True end.

(** The provider is past loading, or its timer is armed and due no later
    than [deadline]. *)
Definition ready_or_armed (deadline : instant) (st : State) : Prop :=
  loading st = false
  ∨ ∃ i due, timer st = Some (i, due) ∧ (due <= deadline)%N.

(** *** [signIn] and [signUp] *)

(** What [signInWithPassword] and [signUp] of the auth client settle to:
    an [error], or [data.user], which may be [null]. *)
Definition AuthReply : Type := AuthError + option SessionUser.t.

(** The [newUser] literal of [signIn]. *)
Definition provisionalUser (u : SessionUser.t) : User.t :=
  User.mk (SessionUser.id u)
    (or_default (SessionUser.email u) [])
    (or_default (beforeAt <$> SessionUser.email u) (lit "User")).

(** The temporary profile [signIn] publishes. *)
Definition provisionalProfile (u : SessionUser.t) (now : instant) : Profile.t :=
  Profile.mk (SessionUser.id u) (SessionUser.id u)
    (User.username (provisionalUser u)) (User.email (provisionalUser u)) now.

(** [signIn(email, password)] up to its return. With a user in the reply
    it also starts [updateUserState] without awaiting it; that call is
    [signIn_background]. *)
Definition signIn (reply : AuthReply) (now : instant) (st : State)
  : AuthError + State :=
  match reply with
  | inl err => inl err
  | inr None => inr st
  | inr (Some u) =>
      inr (setLoading false
             (setProfile (Some (provisionalProfile u now))
                (setUser (Some (provisionalUser u)) st)))
  end.

Definition signIn_background (backend : uuid → Settled) (now : instant)
    (u : SessionUser.t) (st : State) : State :=
  updateUserState backend now u st.

(** [signUp(email, password, username)] *)
Definition signUp (reply : AuthReply) (backend : uuid → Settled)
    (now : instant) (st : State) : AuthError + State :=
  match reply with
  | inl err => inl err
  | inr None => inr st
  | inr (Some u) => inr (updateUserState backend now u st)
  end.

(** *** What is rendered *)

Inductive View : Type :=
  | Nothing        (* [false]: React renders nothing *)
  | Spinner        (* "Checking authentication..." *)
  | ToHome         (* [<Navigate to="/" replace />] *)
  | Page.          (* the protected children *)

(** [ProtectedRoute], reading [user] and [loading] from [useAuth()]. *)
Definition ProtectedRoute (st : State) : View :=
  if loading st then Spinner
  else match user st with
       | None => ToHome
       | Some _ => Page
       end.

(** The provider's [{!loading && children}]. *)
Definition AuthProvider (st : State) (children : State → View) : View :=
  if loading st then Nothing else children st.

(** Every cached profile has a user name that is not empty. *)
Definition named (st : State) : Prop :=
  map_Forall (λ _ p, truthy (Profile.username p) = true) (profileCache st).

End AuthContext.

(** ** [UserList]: the directory and its debounced search *)

Module UserList.

(** The component's state and refs. The rows are kept as they arrive:
    the code guards [username] and [email] with [?.]. [debounceTimer] is
    the armed timer, as the instant it is due and the [search] text its
    callback closed over. *)
Record State : Type := mkState {
  users : list ProfileRow.t;
  loading : bool;
  search : jsstring;
  allUsersCache : list ProfileRow.t;
  debounceTimer : option (instant * jsstring);
  hasFetched : bool
}.

Definition initial : State := mkState [] true [] [] None false.

Definition setUsers (l : list ProfileRow.t) (st : State) : State :=
  mkState l (loading st) (search st) (allUsersCache st) (debounceTimer st)
    (hasFetched st).

Definition setLoading (b : bool) (st : State) : State :=
  mkState (users st) b (search st) (allUsersCache st) (debounceTimer st)
    (hasFetched st).

Definition setSearch (s : jsstring) (st : State) : State :=
  mkState (users st) (loading st) s (allUsersCache st) (debounceTimer st)
    (hasFetched st).

Definition setAllUsersCache (l : list ProfileRow.t) (st : State) : State :=
  mkState (users st) (loading st) (search st) l (debounceTimer st)
    (hasFetched st).

Definition setDebounceTimer (t : option (instant * jsstring)) (st : State) : State :=
  mkState (users st) (loading st) (search st) (allUsersCache st) t
    (hasFetched st).

Definition setHasFetched (b : bool) (st : State) : State :=
  mkState (users st) (loading st) (search st) (allUsersCache st)
    (debounceTimer st) b.

(** [s.startsWith(sub)] on code units. *)
Fixpoint startsWith (s sub : jsstring) : bool :=
  match sub, s with
  | [], _ => true
  | c :: sub', d :: s' => (c =? d) && startsWith s' sub'
  | _ :: _, [] => false
  end.

(** [s.includes(sub)]: [sub] occurs in [s] as a run of code units. *)
Fixpoint includes (s sub : jsstring) : bool :=
  startsWith s sub
  || match s with
     | [] => false
     | _ :: s' => includes s' sub
     end.

(** The delay given to [setTimeout]. *)
Definition DEBOUNCE : N := 200.

(** What the directory query settled to: [{ data, error }] with [error]
    set, or [data], which may be [null]. *)
Inductive UsersReply : Type :=
  | UsersError
  | UsersData (data : option (list ProfileRow.t)).

(** [fetchUsers] from its await on. *)
Definition fetchUsers (reply : UsersReply) (st : State) : State :=
  match reply with
  | UsersError => setLoading false st
  | UsersData data =>
      let userData := default [] data in
      setLoading false (setUsers userData (setAllUsersCache userData st))
  end.

(** The effect that starts [fetchUsers], with its guard. [backend] is
    what the query settles to for the profile id it excludes. *)
Definition fetchEffect (profile : option Profile.t) (backend : uuid → UsersReply)
    (st : State) : State :=
  match profile with
  | Some p =>
      if hasFetched st then st
      else fetchUsers (backend (Profile.id p)) (setHasFetched true st)
  | None => st
  end.

Section Locale.

(** [String.prototype.toLowerCase] follows the Unicode case tables, and
    [ORDER BY username] the collation of the database: both are taken as
    given. *)
Context (toLowerCase : jsstring → jsstring).
Context (username_le : relation ProfileRow.t).
Context `{!∀ x y, Decision (username_le x y)}.

(** [from('profiles').select(...).neq('id', me)
    .order('username', { ascending: true })] *)
Definition select_others (me : uuid) (db : Schema.DB) : list ProfileRow.t :=
  merge_sort username_le
    (filter (λ r, ProfileRow.id r ≠ me) (Schema.profiles db)).

(** [u.username?.toLowerCase().includes(searchValue)
     || u.email?.toLowerCase().includes(searchValue)] *)
Definition matches (searchValue : jsstring) (u : ProfileRow.t) : bool :=
  match ProfileRow.username u with
  | Some n => includes (toLowerCase n) searchValue
  | None => false
  end
  || match ProfileRow.email u with
     | Some e => includes (toLowerCase e) searchValue
     | None => false
     end.

(** The body of the timer callback, for the [search] text it closed
    over. *)
Definition applySearch (text : jsstring) (st : State) : State :=
  let searchValue := toLowerCase (trim text) in
  if truthy searchValue
  then setUsers (List.filter (matches searchValue) (allUsersCache st)) st
  else setUsers (allUsersCache st) st.

(** The input's [onChange] at [now] with the new text, and the effect on
    [search] that follows the render: the pending timer is cleared and a
    new one armed. Setting the state to the text it already holds renders
    nothing and runs no effect. *)
Definition onChange (now : instant) (text : jsstring) (st : State) : State :=
  if bool_decide (text = search st) then st
  else setDebounceTimer (Some (now + DEBOUNCE, text)) (setSearch text st).

(** The event loop runs the timers that are due at [now]. *)
Definition runTimers (now : instant) (st : State) : State :=
  match debounceTimer st with
  | Some (due, text) =>
      if due <=? now then applySearch text (setDebounceTimer None st) else st
  | None => st
  end.

Inductive Event : Type :=
  | Key (now : instant) (text : jsstring)
  | Turn (now : instant)
  | Fetched (reply : UsersReply).

Definition step (ev : Event) (st : State) : State :=
  match ev with
  | Key now text => onChange now text st
  | Turn now => runTimers now st
  | Fetched reply => fetchUsers reply st
  end.

Definition run (evs : list Event) (st : State) : State :=
  foldl (λ s ev, step ev s) st evs.

(** Typing that outruns the delay: [evs] holds keystrokes and turns of
    the event loop only, and no turn finds the pending timer due. [due]
    is the instant the timer pending at the start is due, if one is, and
    [text] the [search] text at the start. *)
Fixpoint typing (due : option instant) (text : jsstring) (evs : list Event) : Prop :=
  match evs with
  | [] => True
  | Key now t :: evs' =>
      if bool_decide (t = text) then typing due text evs'
      else typing (Some (now + DEBOUNCE)) t evs'
  | Turn now :: evs' =>
      match due with
      | Some d => now < d
      | None => True
      end ∧ typing due text evs'
  | Fetched _ :: _ => False
  end.

End Locale.

End UserList.

(** ** Sample data *)

Module Samples.

Import Schema.

Definition alice : ProfileRow.t :=
  ProfileRow.mk 1 11 (Some (lit "alice")) (Some (lit "alice@example.org")) (Some 1000).

Definition bob : ProfileRow.t :=
  ProfileRow.mk 2 12 None (Some (lit "bob@example.org")) None.

(** Two profiles and nothing else. *)
Definition db0 : DB := mkDB [alice; bob] [] [].

(** The other party opens the same chat from its side and gets there
    first: it inserts the pair as (2, 1) under the id 100. *)
Definition bob_first (db : DB) : DB :=
  match insert_conversation 100 2 1 db with
  | inr (_, db') => db'
  | inl _ => db
  end.

Definition me : Profile.t :=
  Profile.mk 1 11 (lit "alice") (lit "alice@example.org") 1000.

Definition m1 : Message.t := Message.mk (lit "a1") 7 2 (lit "hello") 10.
Definition m2 : Message.t := Message.mk (lit "a2") 7 2 (lit "earlier") 5.
Definition m3 : Message.t := Message.mk (lit "a3") 7 1 (lit "hi") 20.

(** An open chat on conversation 7 that holds [m1]; the draft is ["hi "]. *)
Definition chat : ChatWindow.State :=
  ChatWindow.mkState [m1] (lit "hi ") false false (Some 7) (Some 7) true [].

Definition cached : AuthContext.State :=
  AuthContext.setProfileCache {[ 11 := me ]} AuthContext.initial.

Definition no_rows : uuid → AuthContext.Settled :=
  λ _, AuthContext.Resolved
         (AuthContext.mkReply None (Some AuthContext.PGRST116)).

End Samples.

Module MoreSamples.

Import Schema.

(** One profile and nothing else. *)
Definition db1 : DB := mkDB [Samples.alice] [] [].

(** A new identity that signs up without a user name. *)
Definition carol : AuthUser :=
  mkAuthUser (13 * 2 ^ 96 + 5) (Some (lit "carol@example.org")) None.

(** Lower case for the letters A to Z, which is what [toLowerCase] does
    to text of the Basic Latin block. *)
Definition ascii_lower (s : jsstring) : jsstring :=
  (λ c, if (65 <=? c) && (c <=? 90) then c + 32 else c) <$> s.

(** An order on rows to sort by in examples. *)
Definition by_id (x y : ProfileRow.t) : Prop :=
  ProfileRow.id x <= ProfileRow.id y.

#[global] Instance by_id_dec x y : Decision (by_id x y).
Proof. unfold by_id. apply _. Defined.

(** The directory with two users loaded. *)
Definition directory : UserList.State :=
  UserList.mkState [Samples.alice; Samples.bob] false []
    [Samples.alice; Samples.bob] None true.

End MoreSamples.

(** * Properties *)

(** ** JavaScript strings *)

Module JsFacts.

Lemma trimStart_id (s : jsstring) :
  (∀ c, head s = Some c → isWhiteSpace c = false) → trimStart s = s.
Proof.
  destruct s as [|c s]; [done|].
  intros H. simpl. by rewrite (H c eq_refl).
Qed.

Lemma trim_id (s : jsstring) : no_outer_space s → trim s = s.
Proof.
  intros [Hhd Hlast]. unfold trim, trimEnd.
  rewrite (trimStart_id s Hhd).
  rewrite trimStart_id; [apply reverse_involutive|].
  intros c Hc. apply Hlast. by rewrite <- head_reverse.
Qed.

End JsFacts.

(** ** The message stream and the optimistic send *)

Module ChatWindowFacts.

Import Schema ChatWindow.

Lemma has_id_spec (i : jsstring) (prev : list Message.t) :
  has_id i prev = true ↔ ∃ m, m ∈ prev ∧ Message.id m = i.
Proof.
  unfold has_id. rewrite existsb_exists. split.
  - intros (m & Hin & Hm). exists m. split; [by apply list_elem_of_In|].
    by apply bool_decide_eq_true in Hm.
  - intros (m & Hin & Hm). exists m. split; [by apply list_elem_of_In|].
    by apply bool_decide_eq_true.
Qed.

Lemma mergeInsert_present (newMsg : Message.t) (prev : list Message.t) :
  (∃ m, m ∈ prev ∧ Message.id m = Message.id newMsg) →
  mergeInsert newMsg prev = prev.
Proof.
  intros H. unfold mergeInsert. by rewrite (proj2 (has_id_spec _ _) H).
Qed.

Lemma mergeInsert_absent (newMsg : Message.t) (prev : list Message.t) :
  (∀ m, m ∈ prev → Message.id m ≠ Message.id newMsg) →
  mergeInsert newMsg prev = prev ++ [newMsg].
Proof.
  intros H. unfold mergeInsert.
  destruct (has_id (Message.id newMsg) prev) eqn:E; [|done].
  apply has_id_spec in E as (m & Hin & Hm). by destruct (H m Hin).
Qed.

Lemma setMessages_same (st : State) (f : list Message.t → list Message.t) :
  f (messages st) = messages st → setMessages f st = st.
Proof. intros H. destruct st. unfold setMessages. simpl in *. by rewrite H. Qed.

Lemma onInsert_present (newMsg : Message.t) (st : State) :
  (∃ m, m ∈ messages st ∧ Message.id m = Message.id newMsg) →
  onInsert newMsg st = st.
Proof.
  intros H. unfold onInsert.
  destruct (channelRef st); [|done]. case_bool_decide; [|done].
  apply setMessages_same. by apply mergeInsert_present.
Qed.

(** Notifications touch the message list and nothing else. *)
Lemma onInsert_frame (newMsg : Message.t) (st : State) :
  newMessage (onInsert newMsg st) = newMessage st
  ∧ sending (onInsert newMsg st) = sending st
  ∧ conversationIdRef (onInsert newMsg st) = conversationIdRef st
  ∧ channelRef (onInsert newMsg st) = channelRef st.
Proof.
  unfold onInsert. destruct (channelRef st) eqn:E; [|by rewrite E].
  case_bool_decide; simpl; by rewrite ?E.
Qed.

Lemma onInserts_frame (pushed : list Message.t) (st : State) :
  newMessage (onInserts pushed st) = newMessage st
  ∧ sending (onInserts pushed st) = sending st
  ∧ conversationIdRef (onInserts pushed st) = conversationIdRef st
  ∧ channelRef (onInserts pushed st) = channelRef st.
Proof.
  revert st. induction pushed as [|m pushed IH]; intros st; [done|].
  unfold onInserts in *. simpl.
  destruct (IH (onInsert m st)) as (-> & -> & -> & ->).
  apply onInsert_frame.
Qed.

Lemma submit_inv (profile : option Profile.t) (now stamp : instant)
    (st : State) (p : Pending) (st1 : State) :
  handleSend_submit profile now stamp st = Some (p, st1) →
  ∃ convId me,
    conversationIdRef st = Some convId ∧ profile = Some me
    ∧ truthy (trim (newMessage st)) = true ∧ sending st = false
    ∧ p = mkPending
            (Message.mk (temp_id now) convId (Profile.id me)
               (trim (newMessage st)) stamp)
            (trim (newMessage st))
    ∧ st1 = setSending true
              (setNewMessage []
                 (setMessages (λ prev, prev ++ [tempMsg p]) st)).
Proof.
  unfold handleSend_submit.
  destruct (conversationIdRef st) as [convId|]; [|done].
  destruct profile as [me|]; [|done].
  destruct (truthy (trim (newMessage st))) eqn:Ht; [|done].
  destruct (sending st) eqn:Hs; [done|]. simpl.
  intros [= <- <-]. by exists convId, me.
Qed.

Lemma rollback_no_temp (tempId : jsstring) (prev : list Message.t) :
  Forall (λ m, Message.id m ≠ tempId) (rollback tempId prev).
Proof.
  apply Forall_forall. intros m Hm.
  by apply list_elem_of_filter in Hm as [? _].
Qed.

Lemma rollback_id (tempId : jsstring) (prev : list Message.t) :
  Forall (λ m, Message.id m ≠ tempId) prev → rollback tempId prev = prev.
Proof.
  induction 1 as [|m l Hm Hl IH]; [done|].
  unfold rollback in *. rewrite filter_cons. rewrite decide_True by done.
  by rewrite IH.
Qed.

Lemma rollback_snoc (t : Message.t) (prev : list Message.t) :
  Forall (λ m, Message.id m ≠ Message.id t) prev →
  rollback (Message.id t) (prev ++ [t]) = prev.
Proof.
  intros H. unfold rollback. rewrite filter_app.
  fold (rollback (Message.id t) prev). rewrite (rollback_id _ _ H).
  rewrite filter_cons, decide_False by (intros Hne; by apply Hne).
  by rewrite filter_nil, app_nil_r.
Qed.

(** *** Duplicate notifications *)

(** C3. When every pushed insert carries the id of a message that is
    already in the list, the merge returns the list it was given for each
    of them, and delivering the whole run of them leaves the component's
    state, hence the visible sequence with its length and elements, as it
    was. *)
Theorem duplicate_inserts_change_nothing (st : State) (pushed : list Message.t) :
  Forall (λ p, ∃ m, m ∈ messages st ∧ Message.id m = Message.id p) pushed →
  Forall (λ p, mergeInsert p (messages st) = messages st) pushed
  ∧ onInserts pushed st = st.
Proof.
  intros Hdup. split.
  - eapply Forall_impl; [exact Hdup|]. intros p Hp.
    by apply mergeInsert_present.
  - unfold onInserts. induction Hdup as [|p pushed Hp _ IH]; [done|].
    simpl. by rewrite (onInsert_present p st Hp).
Qed.

Lemma duplicate_inserts_change_nothing_witness :
  onInserts [Samples.m1; Samples.m1; Samples.m1] Samples.chat = Samples.chat.
Proof.
  apply (duplicate_inserts_change_nothing Samples.chat
           [Samples.m1; Samples.m1; Samples.m1]).
  repeat constructor; exists Samples.m1; (split; [apply list_elem_of_here|reflexivity]).
Defined.

(** *** Reconciliation *)

(** C10. On a successful send the list keeps its length; an entry whose
    id is not the placeholder's is left as it was, and an entry whose id
    is the placeholder's holds the server's record. *)
Theorem reconcile_frame (p : Pending) (data : Message.t) (st : State) :
  let st' := handleSend_settle p (Inserted data) st in
  length (messages st') = length (messages st)
  ∧ (∀ i m, messages st !! i = Some m →
        Message.id m ≠ Message.id (tempMsg p) →
        messages st' !! i = Some m)
  ∧ (∀ i m, messages st !! i = Some m →
        Message.id m = Message.id (tempMsg p) →
        messages st' !! i = Some data).
Proof.
  simpl. unfold reconcile. split; [apply length_fmap|].
  split; intros i m Hi Hm; rewrite list_lookup_fmap, Hi; simpl.
  - by rewrite bool_decide_eq_false_2.
  - by rewrite bool_decide_eq_true_2.
Qed.

(** *** The sending flag *)

(** C6. A call of [handleSend] that gets past its guard raises the flag
    before the insert is awaited; the flag is still raised when the insert
    settles, whatever was pushed meanwhile, and a submit made while it is
    raised is turned away. The part of the call that runs after the await
    lowers the flag from whatever state it finds, on both outcomes; the
    whole call is that part run on the state the notifications left, so
    when the call has finished the flag is down. *)
Theorem sending_cleared (profile : option Profile.t) (now stamp : instant)
    (pushed : list Message.t) (r : InsertOutcome)
    (st : State) (p : Pending) (st1 : State) :
  handleSend_submit profile now stamp st = Some (p, st1) →
  sending st1 = true
  ∧ sending (onInserts pushed st1) = true
  ∧ (∀ now' stamp',
       handleSend_submit profile now' stamp' (onInserts pushed st1) = None)
  ∧ (∀ st2, sending (handleSend_settle p Failed st2) = false
            ∧ ∀ data, sending (handleSend_settle p (Inserted data) st2) = false)
  ∧ handleSend profile now stamp pushed r st
    = handleSend_settle p r (onInserts pushed st1)
  ∧ sending (handleSend profile now stamp pushed r st) = false.
Proof.
  intros Hsub. unfold handleSend. rewrite Hsub.
  apply submit_inv in Hsub as (convId & me & Hc & -> & _ & _ & _ & ->).
  destruct (onInserts_frame pushed
              (setSending true
                 (setNewMessage []
                    (setMessages (λ prev, prev ++ [tempMsg p]) st))))
    as (_ & Hs & Hconv & _).
  split; [done|]. split; [by rewrite Hs|]. split.
  - intros now' stamp'. unfold handleSend_submit.
    rewrite Hs, Hconv. simpl. rewrite Hc. by rewrite orb_true_r.
  - split; [done|]. split; [done|]. by destruct r.
Qed.

Lemma sending_cleared_witness :
  sending (handleSend (Some Samples.me) 3 4 [Samples.m3] Failed Samples.chat)
  = false
  ∧ sending (handleSend (Some Samples.me) 3 4 [Samples.m3] (Inserted Samples.m3)
               Samples.chat) = false
  ∧ sending (handleSend_settle
               (mkPending (Message.mk (temp_id 3) 7 1 (lit "hi") 4) (lit "hi"))
               Failed (setSending true Samples.chat)) = false.
Proof.
  destruct (handleSend_submit (Some Samples.me) 3 4 Samples.chat)
    as [[p st1]|] eqn:E; [|discriminate E].
  destruct (sending_cleared _ _ _ [Samples.m3] Failed _ _ _ E)
    as (_ & _ & _ & Hsettle & _ & Hfailed).
  destruct (sending_cleared _ _ _ [Samples.m3] (Inserted Samples.m3) _ _ _ E)
    as (_ & _ & _ & _ & _ & Hok).
  split; [exact Hfailed|]. split; [exact Hok|].
  injection E as <- _. exact (proj1 (Hsettle (setSending true Samples.chat))).
Defined.

(** *** A failed send *)

(** C5, as the code has it. When the insert fails, the call leaves no
    message with the placeholder's id in the list (the list is what it
    was before the call when nothing was pushed meanwhile and no message
    had that id), and the input field holds the draft with the white
    space at its two ends removed: the draft itself when it has none. *)
Theorem failed_send_rolls_back (profile : option Profile.t) (now stamp : instant)
    (pushed : list Message.t) (st : State) (p : Pending) (st1 : State) :
  handleSend_submit profile now stamp st = Some (p, st1) →
  let st' := handleSend profile now stamp pushed Failed st in
  Forall (λ m, Message.id m ≠ temp_id now) (messages st')
  ∧ (pushed = [] → Forall (λ m, Message.id m ≠ temp_id now) (messages st) →
     messages st' = messages st)
  ∧ newMessage st' = trim (newMessage st)
  ∧ (no_outer_space (newMessage st) → newMessage st' = newMessage st).
Proof.
  intros Hsub. unfold handleSend. rewrite Hsub.
  apply submit_inv in Hsub as (convId & me & Hc & -> & _ & _ & -> & ->).
  simpl. split; [apply rollback_no_temp|].
  split; [|split; [done|apply JsFacts.trim_id]].
  intros -> Hfresh. simpl. by apply (rollback_snoc (Message.mk _ _ _ _ _)).
Qed.

Lemma failed_send_rolls_back_witness :
  let st := setNewMessage (lit "hi") Samples.chat in
  messages (handleSend (Some Samples.me) 3 4 [] Failed st) = messages st
  ∧ newMessage (handleSend (Some Samples.me) 3 4 [] Failed st) = lit "hi".
Proof.
  intros st.
  destruct (handleSend_submit (Some Samples.me) 3 4 st) as [[p st1]|] eqn:E;
    [|discriminate E].
  destruct (failed_send_rolls_back _ _ _ [] _ _ _ E) as (_ & Hm & _ & Hn).
  split.
  - apply Hm; [reflexivity|]. repeat constructor. discriminate.
  - apply Hn. split; intros c [= <-]; reflexivity.
Defined.

(** C5, as stated, fails: a draft typed as ["hi "] comes back as ["hi"]. *)
Lemma failed_send_trims_draft :
  newMessage Samples.chat = lit "hi "
  ∧ newMessage (handleSend (Some Samples.me) 3 4 [] Failed Samples.chat)
    = lit "hi"
  ∧ newMessage (handleSend (Some Samples.me) 3 4 [] Failed Samples.chat)
    ≠ newMessage Samples.chat.
Proof. split; [reflexivity|]. split; [reflexivity|]. discriminate. Qed.

Lemma reconcile_frame_witness :
  let p := mkPending (Message.mk (temp_id 3) 7 1 (lit "hi") 4) (lit "hi") in
  let st := setMessages (λ prev, prev ++ [tempMsg p]) Samples.chat in
  messages (handleSend_settle p (Inserted Samples.m3) st) !! 0%nat = Some Samples.m1
  ∧ messages (handleSend_settle p (Inserted Samples.m3) st) !! 1%nat = Some Samples.m3.
Proof.
  intros p st.
  destruct (reconcile_frame p Samples.m3 st) as (_ & Hother & Htemp). split.
  - apply (Hother 0%nat Samples.m1); [reflexivity|discriminate].
  - apply (Htemp 1%nat (tempMsg p)); reflexivity.
Defined.

(** *** Order by creation time *)

#[local] Instance created_le_trans : Transitive created_le.
Proof. intros x y z. unfold created_le. lia. Qed.

#[local] Instance created_le_total : Total created_le.
Proof. intros x y. unfold created_le. lia. Qed.

Lemma chronological_strong (l : list Message.t) :
  chronological l ↔ StronglySorted created_le l.
Proof.
  split; [apply Sorted_StronglySorted; apply _|apply StronglySorted_Sorted].
Qed.

Lemma chronological_snoc (l : list Message.t) (x : Message.t) :
  chronological l →
  chronological (l ++ [x]) ↔ (∀ y, last l = Some y → created_le y x).
Proof.
  intros Hl. split.
  - intros H y Hy. apply chronological_strong in H.
    eapply StronglySorted_app_1_elem_of; [exact H| |apply list_elem_of_here].
    by apply last_Some_elem_of.
  - intros H. apply Sorted_snoc; [exact Hl|].
    destruct l as [|z l' _] using rev_ind; [constructor|].
    constructor. apply H. apply last_snoc.
Qed.

Lemma chronological_take (n : nat) (l : list Message.t) :
  chronological l → chronological (take n l).
Proof.
  rewrite !chronological_strong. intros H.
  rewrite <- (take_drop n l) in H. by apply StronglySorted_app_1_l in H.
Qed.

Lemma chronological_rollback (tempId : jsstring) (l : list Message.t) :
  chronological l → chronological (rollback tempId l).
Proof.
  rewrite !chronological_strong. unfold rollback.
  induction 1 as [|m l Hl IH Hm]; [constructor|].
  rewrite filter_cons. case_decide; [|done].
  constructor; [done|].
  apply Forall_forall. intros x Hx.
  apply list_elem_of_filter in Hx as [_ Hx].
  by eapply Forall_forall in Hm.
Qed.

Lemma reconcile_id (tempId : jsstring) (data : Message.t) (l : list Message.t) :
  Forall (λ m, Message.id m ≠ tempId) l → reconcile tempId data l = l.
Proof.
  unfold reconcile. induction 1 as [|m l Hm _ IH]; [done|].
  rewrite fmap_cons, IH. by rewrite bool_decide_eq_false_2.
Qed.

Lemma reconcile_at (t data : Message.t) (l1 l2 : list Message.t) :
  Forall (λ m, Message.id m ≠ Message.id t) l1 →
  Forall (λ m, Message.id m ≠ Message.id t) l2 →
  reconcile (Message.id t) data (l1 ++ t :: l2) = l1 ++ data :: l2.
Proof.
  intros H1 H2. unfold reconcile. rewrite fmap_app, fmap_cons.
  fold (reconcile (Message.id t) data l1).
  fold (reconcile (Message.id t) data l2).
  rewrite (reconcile_id _ _ _ H1), (reconcile_id _ _ _ H2).
  by rewrite bool_decide_eq_true_2.
Qed.

Lemma chronological_replace (t data : Message.t) (l1 l2 : list Message.t) :
  chronological (l1 ++ t :: l2) →
  chronological (l1 ++ data :: l2)
  ↔ Forall (λ x, created_le x data) l1 ∧ Forall (λ x, created_le data x) l2.
Proof.
  rewrite !chronological_strong, !StronglySorted_app.
  intros (Hcross & Hs1 & Hs2). apply StronglySorted_inv in Hs2 as [Hs2 Ht].
  split.
  - intros (Hc & _ & Hd). apply StronglySorted_inv in Hd as [_ Hd].
    split; [|done]. apply Forall_forall. intros x Hx.
    apply Hc; [done|apply list_elem_of_here].
  - intros [Hb Ha]. split; [|split; [done|by constructor]].
    intros x1 x2 Hx1 Hx2. apply elem_of_cons in Hx2 as [->|Hx2].
    + by eapply Forall_forall in Hb.
    + apply Hcross; [done|]. by apply list_elem_of_further.
Qed.

(** C4, as the code has it. The client never sorts. The page that
    [initChat] loads is non-decreasing by creation time. From a
    non-decreasing list, a pushed insert keeps the order exactly when it is
    dropped as a duplicate or is not earlier than the last message held;
    the placeholder's append exactly when the placeholder is not earlier
    than the last message held; the replacement of the placeholder exactly
    when the server's record is not earlier than every message before the
    placeholder and not later than every message after it; the removal of
    the placeholder always. *)
Theorem stream_order_is_arrival_order :
  (∀ convId db, chronological (select_messages convId db))
  ∧ (∀ prev newMsg, chronological prev →
       chronological (mergeInsert newMsg prev)
       ↔ (has_id (Message.id newMsg) prev = true
          ∨ ∀ y, last prev = Some y → created_le y newMsg))
  ∧ (∀ prev t, chronological prev →
       chronological (prev ++ [t]) ↔ (∀ y, last prev = Some y → created_le y t))
  ∧ (∀ l1 t l2 data,
       Forall (λ m, Message.id m ≠ Message.id t) l1 →
       Forall (λ m, Message.id m ≠ Message.id t) l2 →
       chronological (l1 ++ t :: l2) →
       chronological (reconcile (Message.id t) data (l1 ++ t :: l2))
       ↔ (Forall (λ x, created_le x data) l1
          ∧ Forall (λ x, created_le data x) l2))
  ∧ (∀ prev tempId, chronological prev → chronological (rollback tempId prev)).
Proof.
  split; [|split; [|split; [|split]]].
  - intros convId db. apply chronological_take, Sorted_merge_sort, _.
  - intros prev newMsg Hprev. unfold mergeInsert.
    destruct (has_id (Message.id newMsg) prev) eqn:E.
    + split; [by left|done].
    + rewrite (chronological_snoc _ _ Hprev). split; [by right|].
      by intros [?|?].
  - intros prev t. apply chronological_snoc.
  - intros l1 t l2 data H1 H2 Hs. rewrite (reconcile_at _ _ _ _ H1 H2).
    by apply chronological_replace with t.
  - intros prev tempId. apply chronological_rollback.
Qed.

Lemma stream_order_is_arrival_order_witness :
  chronological (mergeInsert Samples.m3 [Samples.m1])
  ∧ chronological (rollback (temp_id 3) [Samples.m1; Samples.m3]).
Proof.
  destruct stream_order_is_arrival_order as (_ & Hpush & _ & _ & Hrb).
  assert (Hone : chronological [Samples.m1]) by repeat constructor.
  split.
  - apply (Hpush [Samples.m1] Samples.m3 Hone). right.
    intros y [= <-]. unfold created_le. simpl. lia.
  - apply Hrb. apply (Hpush [Samples.m1] Samples.m3 Hone). right.
    intros y [= <-]. unfold created_le. simpl. lia.
Defined.

(** C4, as stated, fails: the open chat holds a message created at 10,
    the channel then delivers one created at 5, and the list is no longer
    in time order. *)
Lemma push_breaks_time_order :
  chronological (messages Samples.chat)
  ∧ messages (onInsert Samples.m2 Samples.chat) = [Samples.m1; Samples.m2]
  ∧ ¬ chronological (messages (onInsert Samples.m2 Samples.chat)).
Proof.
  split; [repeat constructor|]. split; [reflexivity|].
  intros H. change (Sorted created_le [Samples.m1; Samples.m2]) in H.
  apply Sorted_inv in H as [_ H]. inversion H as [|? ? Hle]; subst.
  unfold created_le in Hle. simpl in Hle. lia.
Qed.

(** *** The conversation of a pair *)




Lemma normalize_cases (g a b : uuid) :
  let NEW := normalize_conversation_users (Conversation.mk g a b) in
  Conversation.id NEW = g
  ∧ either_order a b NEW
  ∧ (Conversation.user1_id NEW <= Conversation.user2_id NEW)%N.
Proof.
  unfold normalize_conversation_users, either_order. simpl.
  destruct (b <? a)%N eqn:E; simpl.
  - apply N.ltb_lt in E. split; [done|]. split; [by right|lia].
  - apply N.ltb_ge in E. split; [done|]. split; [by left|lia].
Qed.

(** Rows in trigger order that match the same lookup carry the same pair. *)
Lemma either_order_pair (a b : uuid) (c d : Conversation.t) :
  ordered_row c → ordered_row d →
  either_order a b c → either_order a b d → pair_of c = pair_of d.
Proof.
  unfold ordered_row, either_order, pair_of.
  intros Hc Hd [[? ?]|[? ?]] [[? ?]|[? ?]]; f_equal; lia.
Qed.

Lemma filter_empty_iff {A} (P : A → Prop) `{!∀ x, Decision (P x)} (l : list A) :
  filter P l = [] ↔ Forall (λ x, ¬ P x) l.
Proof.
  induction l as [|x l IH]; [by split|].
  rewrite filter_cons, Forall_cons. case_decide.
  - split; [done|]. by intros [? _].
  - rewrite IH. split; [by split|by intros [_ ?]].
Qed.

(** Under the schema's constraints the lookup has at most one row to
    return: [limit(1)] makes no choice. *)
Lemma at_most_one_match (a b : uuid) (db : DB) :
  consistent db →
  (length (filter (either_order a b) (conversations db)) ≤ 1)%nat.
Proof.
  intros (Hord & Hpairs & _). revert Hord Hpairs.
  induction (conversations db) as [|c l IH]; intros Hord Hpairs; [simpl; lia|].
  apply Forall_cons in Hord as [Hc Hl].
  rewrite fmap_cons in Hpairs. apply NoDup_cons in Hpairs as [Hnotin Hnd].
  rewrite filter_cons. case_decide as Hm; [|by apply IH].
  assert (filter (either_order a b) l = []) as ->; [|simpl; lia].
  apply (proj2 (filter_empty_iff _ _)), Forall_forall. intros d Hd Hmd.
  apply Hnotin. rewrite (either_order_pair a b c d); try done.
  - apply list_elem_of_fmap. by exists d.
  - by eapply Forall_forall in Hl.
Qed.



(** The constraints hold after every insert that goes through. *)
Lemma insert_conversation_consistent (g a b : uuid) (db db' : DB) (c : uuid) :
  consistent db →
  insert_conversation g a b db = inr (c, db') →
  consistent db'.
Proof.
  intros (Hord & Hpairs & Hids). unfold insert_conversation.
  destruct (normalize_cases g a b) as (Hid & Hmatch & Hle).
  set (NEW := normalize_conversation_users (Conversation.mk g a b)) in *.
  case_bool_decide as Hne; [done|].
  case_bool_decide as Hg; [done|].
  case_bool_decide as Hex; [done|].
  case_bool_decide; [|done].
  intros [= <- <-]. unfold consistent. simpl.
  split; [|split].
  - apply Forall_app. split; [done|]. constructor; [|done].
    unfold ordered_row. lia.
  - rewrite fmap_app. apply NoDup_app. split; [done|].
    split; [|apply NoDup_singleton].
    intros x Hx Hx'. apply list_elem_of_singleton in Hx'. subst x.
    apply list_elem_of_fmap in Hx as (d & Hd & Hin).
    apply Hex. apply Exists_exists. exists d. split; [done|].
    unfold pair_of in Hd. by injection Hd.
  - rewrite fmap_app. apply NoDup_app. split; [done|].
    split; [|apply NoDup_singleton].
    intros x Hx Hx'. apply list_elem_of_singleton in Hx'. subst x.
    by rewrite Hid in Hx.
Qed.




(** C1, as the code has it. When the lookup finds no row and the insert
    then fails, with a uniqueness conflict or any other error, [initChat]
    neither passes the error to its caller nor queries again: it logs the
    error and ends the loading state; the conversation id, the message
    list and the channel are left as they were, and nothing further is
    asked of the database. *)
Theorem failed_creation_is_swallowed (me other g : uuid) (rivals later : DB → DB)
    (db : DB) (st : State) (error : PgError) :
  select_conversation me other db = [] →
  insert_conversation g me other (rivals db) = inl error →
  ∃ st',
    initChat me other g rivals later db st = (rivals db, st')
    ∧ conversationIdRef st' = conversationIdRef st
    ∧ messages st' = messages st
    ∧ channelRef st' = channelRef st
    ∧ loading st' = false
    ∧ console st' = console st ++ [Some error].
Proof.
  intros Hsel Hins. unfold initChat. rewrite Hsel, Hins.
  eexists. split; [reflexivity|]. by repeat split.
Qed.

Lemma failed_creation_is_swallowed_witness :
  ∃ st',
    initChat 1 2 101 Samples.bob_first id Samples.db0 initial
    = (Samples.bob_first Samples.db0, st')
    ∧ conversationIdRef st' = conversationIdRef initial
    ∧ messages st' = messages initial
    ∧ channelRef st' = channelRef initial
    ∧ loading st' = false
    ∧ console st' = console initial ++ [Some unique_violation].
Proof.
  apply (failed_creation_is_swallowed 1 2 101 Samples.bob_first id
           Samples.db0 initial unique_violation); reflexivity.
Defined.

(** C1, as stated, fails: both parties open the chat at once, the other
    one's row is committed between this client's lookup and its insert,
    the insert ends in a uniqueness conflict, and [initChat] ends without
    a conversation id although the row, with id 100, is there to be
    found. *)
Lemma conflict_leaves_no_conversation :
  let r := initChat 1 2 101 Samples.bob_first id Samples.db0 initial in
  select_conversation 1 2 Samples.db0 = []
  ∧ insert_conversation 101 1 2 (Samples.bob_first Samples.db0)
    = inl unique_violation
  ∧ select_conversation 1 2 r.1 = [100]
  ∧ conversationIdRef r.2 = None
  ∧ conversationIdRef r.2 ≠ head (select_conversation 1 2 r.1).
Proof. repeat split; try reflexivity. discriminate. Qed.

End ChatWindowFacts.

(** ** The session provider *)

Module AuthContextFacts.

Import AuthContext.

(** *** The profile cache *)

Lemma fetchProfile_hit (backend : uuid → Settled) (now : instant)
    (userId : uuid) (st : State) (p : Profile.t) :
  profileCache st !! userId = Some p →
  fetchProfile backend now userId st = (Some p, st).
Proof. intros H. unfold fetchProfile. by rewrite H. Qed.

Lemma fetchProfile_miss (backend : uuid → Settled) (now : instant)
    (userId : uuid) (st : State) :
  profileCache st !! userId = None →
  fetchProfile backend now userId st
  = match backend userId with
    | Rejected => (None, console_error ErrorFetchingProfile (request userId st))
    | Resolved r =>
        if throws r
        then (None, console_error ErrorFetchingProfile (request userId st))
        else
          match data r with
          | Some d =>
              (Some (formatProfile d now),
               setProfileCache
                 (<[userId := formatProfile d now]> (profileCache st))
                 (request userId st))
          | None => (None, request userId st)
          end
    end.
Proof. intros H. unfold fetchProfile. by rewrite H. Qed.

Lemma fetchProfile_null_keeps_cache (backend : uuid → Settled) (now : instant)
    (userId : uuid) (st : State) :
  (fetchProfile backend now userId st).1 = None →
  profileCache (fetchProfile backend now userId st).2 = profileCache st.
Proof.
  unfold fetchProfile. destruct (profileCache st !! userId); [done|].
  destruct (backend userId) as [r|]; [|done].
  destruct (throws r); [done|]. by destruct (data r).
Qed.

(** C9. On a cache miss, a reply of "no rows", an error reply and a
    rejected request all make [fetchProfile] return [null] and leave the
    cache as it was; whenever it returns [null] the cache is as it was, so
    a later lookup asks the backend again and gives the profile once the
    row exists; when it returns a profile, that profile was built from a
    row of an error-free reply, it is the one entry added to the cache,
    and every later lookup returns it from there without asking the
    backend. *)
Theorem fetchProfile_caches_only_success (backend : uuid → Settled)
    (now : instant) (userId : uuid) (st : State) :
  profileCache st !! userId = None →
  let res := (fetchProfile backend now userId st).1 in
  let st1 := (fetchProfile backend now userId st).2 in
  ((backend userId = Resolved (mkReply None (Some PGRST116))
    ∨ backend userId = Rejected
    ∨ (∃ r, backend userId = Resolved r ∧ throws r = true)) →
   res = None)
  ∧ (res = None →
     profileCache st1 = profileCache st
     ∧ ∀ backend' now' d,
         backend' userId = Resolved (mkReply (Some d) None) →
         (fetchProfile backend' now' userId st1).1
         = Some (formatProfile d now')
         ∧ fetches (fetchProfile backend' now' userId st1).2
           = fetches st1 ++ [userId])
  ∧ (∀ p, res = Some p →
     (∃ r d, backend userId = Resolved r ∧ throws r = false
             ∧ data r = Some d ∧ p = formatProfile d now)
     ∧ profileCache st1 = <[userId := p]> (profileCache st)
     ∧ ∀ backend' now', fetchProfile backend' now' userId st1 = (Some p, st1)).
Proof.
  intros Hmiss res st1. split; [|split].
  - subst res. rewrite (fetchProfile_miss _ _ _ _ Hmiss).
    intros [->|[->|(r & -> & ->)]]; done.
  - intros Hnone.
    pose proof (fetchProfile_null_keeps_cache _ _ _ _ Hnone) as Hcache.
    fold st1 in Hcache. split; [exact Hcache|].
    intros backend' now' d Hrow.
    rewrite fetchProfile_miss by (by rewrite Hcache).
    by rewrite Hrow.
  - subst res st1. rewrite (fetchProfile_miss _ _ _ _ Hmiss).
    intros p Hp.
    destruct (backend userId) as [r|]; [|done].
    destruct (throws r) eqn:Ht; [done|].
    destruct (data r) as [d|] eqn:Hd; [|done].
    simpl in Hp. injection Hp as <-. simpl.
    split; [by exists r, d|]. split; [done|].
    intros backend' now'. apply fetchProfile_hit. simpl.
    apply lookup_insert_eq.
Qed.

Lemma fetchProfile_caches_only_success_witness :
  (fetchProfile (profiles_single Samples.db0) 5 99 initial).1 = None
  ∧ profileCache (fetchProfile (profiles_single Samples.db0) 5 99 initial).2 = ∅
  ∧ (fetchProfile (profiles_single Samples.db0) 5 12 initial).1
    = Some (Profile.mk 2 12 (lit "bob") (lit "bob@example.org") 5).
Proof.
  destruct (fetchProfile_caches_only_success
              (profiles_single Samples.db0) 5 99 initial (lookup_empty 99))
    as (Hnull & Hkeep & _).
  destruct (fetchProfile_caches_only_success
              (profiles_single Samples.db0) 5 12 initial (lookup_empty 12))
    as (_ & _ & Hsome).
  assert (Hn : (fetchProfile (profiles_single Samples.db0) 5 99 initial).1 = None)
    by (apply Hnull; left; reflexivity).
  split; [exact Hn|]. split; [exact (proj1 (Hkeep Hn))|reflexivity].
Defined.

(** *** Sign-out *)

(** C8. A sign-out that the backend accepts publishes no user and no
    profile and leaves the cache empty. A user id that was served from
    the cache before, without any request, is asked of the backend on the
    next lookup after it, and the answer is built from the row the
    backend sends. *)
Theorem signOut_clears_cache (st st' : State) (userId : uuid) (p : Profile.t) :
  profileCache st !! userId = Some p →
  signOut None st = inr st' →
  user st' = None ∧ profile st' = None ∧ profileCache st' = ∅
  ∧ (∀ backend now, fetchProfile backend now userId st = (Some p, st))
  ∧ (∀ backend now,
       fetches (fetchProfile backend now userId st').2 = fetches st' ++ [userId]
       ∧ ∀ d, backend userId = Resolved (mkReply (Some d) None) →
              (fetchProfile backend now userId st').1
              = Some (formatProfile d now)).
Proof.
  intros Hhit [= <-]. split; [done|]. split; [done|]. split; [done|].
  split; [intros; by apply fetchProfile_hit|].
  intros backend now. rewrite fetchProfile_miss by apply lookup_empty.
  split.
  - destruct (backend userId) as [r|]; [|done].
    destruct (throws r); [done|]. by destruct (data r).
  - by intros d ->.
Qed.

Lemma signOut_clears_cache_witness :
  ∃ st', signOut None Samples.cached = inr st'
  ∧ profileCache st' = ∅
  ∧ fetches (fetchProfile Samples.no_rows 5 11 st').2 = [11].
Proof.
  exists (setProfileCache ∅ (setProfile None (setUser None Samples.cached))).
  split; [reflexivity|].
  destruct (signOut_clears_cache Samples.cached
              (setProfileCache ∅ (setProfile None (setUser None Samples.cached)))
              11 Samples.me)
    as (_ & _ & Hempty & _ & Hfetch).
  - apply lookup_singleton_eq.
  - reflexivity.
  - split; [exact Hempty|]. exact (proj1 (Hfetch Samples.no_rows 5)).
Defined.

(** *** The bootstrap and its safety timer *)

(** [loading] starts as [true] and no step sets it back to [true]. *)
Lemma step_keeps_ready (ev : Event) (st : State) :
  loading st = false → loading (step ev st) = false.
Proof.
  intros H. destruct ev as [now|tid now session backend|now session backend|tid];
    simpl.
  - unfold runTimers. destruct (timer st) as [[i due]|]; [|done].
    by destruct (due <=? now)%N.
  - done.
  - by destruct (listener st).
  - unfold clearTimeout. destruct (timer st) as [[i due]|]; [|done].
    by destruct (i =? tid)%N.
Qed.

Lemma run_keeps_ready (evs : list Event) (st : State) :
  loading st = false → loading (run evs st) = false.
Proof.
  revert st. induction evs as [|ev evs IH]; intros st H; [done|].
  apply IH. by apply step_keeps_ready.
Qed.

Lemma bootstrapEffect_armed (now : instant) (listenerThrows : bool) (st : State) :
  sessionChecked st = false →
  ready_or_armed (now + SAFETY_TIMEOUT) (bootstrapEffect now listenerThrows st).
Proof.
  intros H. unfold bootstrapEffect. rewrite H.
  destruct listenerThrows; [by left|].
  right. exists (nextTimerId st), (now + SAFETY_TIMEOUT)%N. by split.
Qed.

Lemma step_ready_or_armed (deadline : instant) (ev : Event) (st : State) :
  mounted ev → ready_or_armed deadline st → ready_or_armed deadline (step ev st).
Proof.
  intros Hev [Hready|(i & due & Htimer & Hdue)].
  { left. by apply step_keeps_ready. }
  destruct ev as [now|tid now session backend|now session backend|tid];
    simpl; try done.
  - unfold runTimers. rewrite Htimer.
    destruct (due <=? now)%N; [by left|]. right. by exists i, due.
  - by left.
  - destruct (listener st); [by left|]. right. by exists i, due.
Qed.

Lemma run_ready_or_armed (deadline : instant) (evs : list Event) (st : State) :
  Forall mounted evs → ready_or_armed deadline st →
  ready_or_armed deadline (run evs st).
Proof.
  intros Hevs. revert st.
  induction Hevs as [|ev evs Hev _ IH]; intros st H; [done|].
  apply IH. by apply step_ready_or_armed.
Qed.

Lemma turn_at_deadline (deadline now : instant) (st : State) :
  (deadline <= now)%N → ready_or_armed deadline st →
  loading (step (Turn now) st) = false.
Proof.
  intros Hnow [Hready|(i & due & Htimer & Hdue)].
  { by apply step_keeps_ready. }
  simpl. unfold runTimers. rewrite Htimer.
  destruct (due <=? now)%N eqn:E; [done|]. apply N.leb_gt in E. lia.
Qed.

(** Whatever the backend does and whenever, a mounted provider is past
    loading at the first turn of the event loop that comes 2000 ms or more
    after the effect ran. *)
Lemma bootstrap_deadline (t0 t : instant) (listenerThrows : bool)
    (evs : list Event) (st : State) :
  sessionChecked st = false →
  Forall mounted evs →
  (t0 + SAFETY_TIMEOUT <= t)%N →
  loading (run (evs ++ [Turn t]) (bootstrapEffect t0 listenerThrows st)) = false.
Proof.
  intros Hfirst Hevs Ht. unfold run. rewrite foldl_snoc.
  apply turn_at_deadline with (t0 + SAFETY_TIMEOUT)%N; [done|].
  apply run_ready_or_armed; [done|]. by apply bootstrapEffect_armed.
Qed.

(** Before that, with a backend that does not respond and a listener
    that registered, nothing changes [loading]. *)
Lemma bootstrap_waits (t0 : instant) (evs : list Event) (st : State) :
  sessionChecked st = false →
  Forall (λ ev, ∃ t, ev = Turn t ∧ (t < t0 + SAFETY_TIMEOUT)%N) evs →
  loading (run evs (bootstrapEffect t0 false st)) = loading st.
Proof.
  intros Hfirst Hevs. unfold bootstrapEffect. rewrite Hfirst.
  set (st0 := setListener true _).
  assert (Hinv : timer st0 = Some (nextTimerId st, (t0 + SAFETY_TIMEOUT)%N)
                 ∧ loading st0 = loading st) by done.
  clearbody st0. revert st0 Hinv.
  induction Hevs as [|ev evs (t & -> & Ht) _ IH]; intros st0 [Htimer Hload];
    [done|].
  apply IH. simpl. unfold runTimers. rewrite Htimer.
  destruct (_ <=? t)%N eqn:E; [apply N.leb_le in E; lia|done].
Qed.

(** C7. The effect arms a timer of 2000 ms before anything is awaited.
    With a backend that never responds, so that nothing happens but the
    event loop turning, [loading] is [false] after the first turn that
    comes 2000 ms or more after the effect ran. *)
Theorem bootstrap_never_blocks (t0 t : instant) (listenerThrows : bool)
    (evs : list Event) (st : State) :
  sessionChecked st = false →
  Forall silent evs →
  (t0 + 2000 <= t)%N →
  loading (run (evs ++ [Turn t]) (bootstrapEffect t0 listenerThrows st)) = false.
Proof.
  intros Hfirst Hevs Ht. apply bootstrap_deadline; [done| |done].
  eapply Forall_impl; [exact Hevs|]. by intros [].
Qed.

Lemma bootstrap_never_blocks_witness :
  loading (run [Turn 700; Turn 1699; Turn 2500] (bootstrapEffect 500 false initial))
  = false
  ∧ loading (run [Turn 700; Turn 1699] (bootstrapEffect 500 false initial)) = true.
Proof.
  split; [|reflexivity].
  apply (bootstrap_never_blocks 500 2500 false [Turn 700; Turn 1699] initial).
  - reflexivity.
  - repeat constructor.
  - lia.
Defined.

End AuthContextFacts.

(** * Further properties *)

(** ** White space *)

Module JsMore.

Lemma trimStart_nil_iff (s : jsstring) :
  trimStart s = [] ↔ Forall (λ c, isWhiteSpace c = true) s.
Proof.
  induction s as [|c s IH]; [by split|]. simpl.
  destruct (isWhiteSpace c) eqn:E.
  - rewrite IH. split; [by constructor|by intros [_ ?]%Forall_cons].
  - split; [done|]. intros [? _]%Forall_cons. congruence.
Qed.

Lemma trimStart_head (s : jsstring) (c : N) :
  head (trimStart s) = Some c → isWhiteSpace c = false.
Proof.
  induction s as [|d s IH]; [done|]. simpl.
  destruct (isWhiteSpace d) eqn:E; [done|]. by intros [= <-].
Qed.

Lemma trim_nil_iff (s : jsstring) :
  trim s = [] ↔ Forall (λ c, isWhiteSpace c = true) s.
Proof.
  rewrite <- trimStart_nil_iff. unfold trim, trimEnd. split.
  - intros H. apply (f_equal reverse) in H.
    rewrite reverse_involutive, reverse_nil in H.
    apply trimStart_nil_iff in H. rewrite Forall_reverse in H.
    destruct (trimStart s) as [|c t] eqn:E; [done|].
    apply Forall_cons in H as [Hc _].
    by rewrite (trimStart_head s c) in Hc by (by rewrite E).
  - by intros ->.
Qed.

End JsMore.

(** ** The message stream, continued *)

Module ChatWindowMore.

Import Schema ChatWindow ChatWindowFacts.

(** A notification is absorbed when the channel's filter keeps it out or
    a message with its id is held. *)
Lemma onInsert_cases (newMsg : Message.t) (st : State) :
  (onInsert newMsg st = st
   ∧ (channelRef st ≠ Some (Message.conversation_id newMsg)
      ∨ has_id (Message.id newMsg) (messages st) = true))
  ∨ (channelRef st = Some (Message.conversation_id newMsg)
     ∧ has_id (Message.id newMsg) (messages st) = false
     ∧ onInsert newMsg st = setMessages (λ prev, prev ++ [newMsg]) st).
Proof.
  unfold onInsert. destruct (channelRef st) as [c|] eqn:Hc.
  - case_bool_decide as Hconv.
    + destruct (has_id (Message.id newMsg) (messages st)) eqn:Hid.
      * left. split; [|by right]. apply setMessages_same.
        unfold mergeInsert. by rewrite Hid.
      * right. subst c. split; [done|]. split; [done|].
        destruct st. unfold setMessages, mergeInsert. simpl in *.
        by rewrite Hid.
    + left. split; [done|]. left. congruence.
  - left. split; [done|]. by left.
Qed.

Lemma has_id_app (i : jsstring) (l k : list Message.t) :
  has_id i (l ++ k) = has_id i l || has_id i k.
Proof. unfold has_id. apply existsb_app. Qed.

Lemma has_id_false (i : jsstring) (l : list Message.t) :
  has_id i l = false ↔ Forall (λ m, Message.id m ≠ i) l.
Proof.
  rewrite Forall_forall. split.
  - intros H m Hm Heq.
    assert (has_id i l = true) by (apply has_id_spec; by exists m).
    congruence.
  - intros H. destruct (has_id i l) eqn:E; [|done].
    apply has_id_spec in E as (m & Hm & Heq). by destruct (H m Hm).
Qed.

Lemma onInsert_ids (newMsg : Message.t) (st : State) :
  NoDup (Message.id <$> messages st) →
  NoDup (Message.id <$> messages (onInsert newMsg st)).
Proof.
  intros Hnd.
  destruct (onInsert_cases newMsg st) as [[-> _]|(_ & Hid & ->)]; [done|].
  simpl. rewrite fmap_app. apply NoDup_app. split; [done|].
  split; [|apply NoDup_singleton].
  intros i Hi Hi'. apply list_elem_of_singleton in Hi'. subst i.
  apply list_elem_of_fmap in Hi as (m & Hm & Hin).
  apply has_id_false in Hid. eapply Forall_forall in Hid; [|exact Hin].
  by apply Hid.
Qed.

Lemma onInsert_prefix (newMsg : Message.t) (st : State) :
  messages st `prefix_of` messages (onInsert newMsg st).
Proof.
  destruct (onInsert_cases newMsg st) as [[-> _]|(_ & _ & ->)]; [done|].
  simpl. by apply prefix_app_r.
Qed.

(** X1. Notifications never bring a second message with an id that is held:
    when the ids in the list are all different they stay all different
    through any run of notifications, and the list only grows at its end. *)
Theorem pushes_keep_ids_distinct (pushed : list Message.t) (st : State) :
  NoDup (Message.id <$> messages st) →
  NoDup (Message.id <$> messages (onInserts pushed st))
  ∧ messages st `prefix_of` messages (onInserts pushed st).
Proof.
  revert st. unfold onInserts.
  induction pushed as [|p pushed IH]; intros st Hnd; [done|].
  simpl. destruct (IH (onInsert p st) (onInsert_ids p st Hnd)) as [H1 H2].
  split; [done|]. etrans; [apply (onInsert_prefix p)|done].
Qed.

Lemma pushes_keep_ids_distinct_witness :
  NoDup (Message.id <$> messages
           (onInserts [Samples.m3; Samples.m1; Samples.m3] Samples.chat)).
Proof.
  apply (pushes_keep_ids_distinct [Samples.m3; Samples.m1; Samples.m3]
           Samples.chat).
  apply NoDup_singleton.
Defined.

Lemma absorbed_onInsert (p : Message.t) (st : State) :
  absorbed p st → onInsert p st = st.
Proof.
  intros Habs.
  destruct (onInsert_cases p st) as [[-> _]|(Hc & Hid & _)]; [done|].
  destruct Habs; congruence.
Qed.

Lemma absorbed_after (p : Message.t) (st : State) :
  absorbed p (onInsert p st).
Proof.
  destruct (onInsert_cases p st) as [[-> H]|(Hc & _ & ->)]; [done|].
  right. simpl. rewrite has_id_app. apply orb_true_iff. right.
  apply has_id_spec. exists p. split; [apply list_elem_of_here|done].
Qed.

Lemma absorbed_mono (p q : Message.t) (st : State) :
  absorbed p st → absorbed p (onInsert q st).
Proof.
  intros Habs.
  destruct (onInsert_cases q st) as [[-> _]|(_ & _ & ->)]; [done|].
  destruct Habs as [Hc|Hid]; [by left|]. right. simpl.
  rewrite has_id_app, Hid. done.
Qed.

Lemma absorbed_onInserts (p : Message.t) (pushed : list Message.t) (st : State) :
  absorbed p st → absorbed p (onInserts pushed st).
Proof.
  revert st. unfold onInserts.
  induction pushed as [|q pushed IH]; intros st H; [done|].
  simpl. apply IH. by apply absorbed_mono.
Qed.

Lemma all_absorbed (pushed : list Message.t) (st : State) :
  Forall (λ p, absorbed p st) pushed → onInserts pushed st = st.
Proof.
  unfold onInserts. induction 1 as [|p pushed Hp _ IH]; [done|].
  simpl. by rewrite (absorbed_onInsert p st Hp).
Qed.

(** X2. Delivering a run of notifications a second time changes nothing,
    whatever the list held before and whichever of them the channel's
    filter lets through. *)
Theorem replay_changes_nothing (pushed : list Message.t) (st : State) :
  onInserts pushed (onInserts pushed st) = onInserts pushed st.
Proof.
  apply all_absorbed. revert st.
  induction pushed as [|p pushed IH]; intros st; [constructor|].
  constructor.
  - change (onInserts (p :: pushed) st) with (onInserts pushed (onInsert p st)).
    apply absorbed_onInserts, absorbed_after.
  - apply (IH (onInsert p st)).
Qed.

(** X3. A send that gets past the guard and succeeds, with nothing pushed
    meanwhile and no message already carrying the placeholder's id, ends
    with the server's record appended once after the messages held before
    and with an empty input; the notification that echoes the record
    afterwards is dropped. *)
Theorem echo_after_reply_is_dropped (profile : option Profile.t)
    (now stamp : instant) (data : Message.t) (st : State)
    (p : Pending) (st1 : State) :
  handleSend_submit profile now stamp st = Some (p, st1) →
  Forall (λ m, Message.id m ≠ temp_id now) (messages st) →
  let st' := handleSend profile now stamp [] (Inserted data) st in
  messages st' = messages st ++ [data]
  ∧ newMessage st' = []
  ∧ onInsert data st' = st'.
Proof.
  intros Hsub Hfresh. unfold handleSend. rewrite Hsub.
  apply submit_inv in Hsub as (convId & me & Hc & -> & _ & _ & -> & ->).
  simpl.
  assert (Hrec : reconcile (temp_id now) data
                   (messages st
                      ++ [Message.mk (temp_id now) convId (Profile.id me)
                            (trim (newMessage st)) stamp])
                 = messages st ++ [data]).
  { by apply (reconcile_at (Message.mk (temp_id now) _ _ _ _) data
                (messages st) []). }
  split; [exact Hrec|]. split; [done|].
  apply onInsert_present. simpl. rewrite Hrec.
  exists data. split; [|done]. apply elem_of_app. right.
  apply list_elem_of_here.
Qed.

Lemma echo_after_reply_is_dropped_witness :
  messages (handleSend (Some Samples.me) 3 4 [] (Inserted Samples.m3) Samples.chat)
  = [Samples.m1; Samples.m3].
Proof.
  destruct (handleSend_submit (Some Samples.me) 3 4 Samples.chat)
    as [[p st1]|] eqn:E; [|discriminate E].
  apply (echo_after_reply_is_dropped _ _ _ Samples.m3 _ _ _ E).
  repeat constructor. discriminate.
Defined.

(** X4. The same send, when the notification that echoes the record arrives
    while the insert is still awaited: the list has no message with the
    record's id yet, so the echo is appended after the placeholder, and
    the reply then turns the placeholder into the record as well. The
    record is held twice. *)
Theorem echo_before_reply_is_kept (profile : option Profile.t)
    (now stamp : instant) (data : Message.t) (st : State)
    (p : Pending) (st1 : State) :
  handleSend_submit profile now stamp st = Some (p, st1) →
  channelRef st = Some (Message.conversation_id data) →
  Forall (λ m, Message.id m ≠ temp_id now) (messages st) →
  Forall (λ m, Message.id m ≠ Message.id data) (messages st) →
  Message.id data ≠ temp_id now →
  messages (handleSend profile now stamp [data] (Inserted data) st)
  = messages st ++ [data; data].
Proof.
  intros Hsub Hchan Hfresh Hnew Hne. unfold handleSend. rewrite Hsub.
  apply submit_inv in Hsub as (convId & me & Hc & -> & _ & _ & -> & ->).
  set (t := Message.mk (temp_id now) convId (Profile.id me)
              (trim (newMessage st)) stamp).
  unfold onInserts. simpl. unfold onInsert. simpl. rewrite Hchan.
  rewrite bool_decide_eq_true_2 by done. simpl.
  rewrite mergeInsert_absent.
  2:{ intros m [Hm| ->%list_elem_of_singleton]%elem_of_app.
      - by eapply Forall_forall in Hnew.
      - simpl. congruence. }
  rewrite <- app_assoc. simpl.
  apply (reconcile_at t data (messages st) [data]); [done|].
  repeat constructor. exact Hne.
Qed.

Lemma echo_before_reply_is_kept_witness :
  messages (handleSend (Some Samples.me) 3 4 [Samples.m3] (Inserted Samples.m3)
              Samples.chat)
  = [Samples.m1; Samples.m3; Samples.m3].
Proof.
  destruct (handleSend_submit (Some Samples.me) 3 4 Samples.chat)
    as [[p st1]|] eqn:E; [|discriminate E].
  apply (echo_before_reply_is_kept _ _ _ Samples.m3 _ _ _ E).
  - reflexivity.
  - repeat constructor. discriminate.
  - repeat constructor. discriminate.
  - discriminate.
Defined.

(** X5. [handleSend] turns a submit away, leaving every part of the state as
    it was, exactly when the submit button is disabled, or no conversation
    has been resolved, or no profile is published; and the button is
    disabled exactly when the draft is empty or all white space, or a send
    is in flight. *)
Theorem submit_guard (profile : option Profile.t) (now stamp : instant)
    (pushed : list Message.t) (r : InsertOutcome) (st : State) :
  (handleSend_submit profile now stamp st = None
   ↔ sendDisabled st = true ∨ conversationIdRef st = None ∨ profile = None)
  ∧ (handleSend_submit profile now stamp st = None →
     handleSend profile now stamp pushed r st = st)
  ∧ (sendDisabled st = true
     ↔ Forall (λ c, isWhiteSpace c = true) (newMessage st) ∨ sending st = true).
Proof.
  split; [|split].
  - unfold handleSend_submit, sendDisabled.
    destruct (conversationIdRef st), profile;
      destruct (negb (truthy (trim (newMessage st))) || sending st);
      simpl; intuition congruence.
  - intros H. unfold handleSend. by rewrite H.
  - unfold sendDisabled. rewrite orb_true_iff, <- JsMore.trim_nil_iff.
    destruct (trim (newMessage st)); simpl; intuition congruence.
Qed.

(** *** Placeholder ids *)

Lemma lit_inj (a b : string) : lit a = lit b → a = b.
Proof.
  unfold lit. intros H.
  apply (f_equal (fmap (M:=list) Ascii.ascii_of_N)) in H.
  rewrite <- !list_fmap_compose in H.
  assert (Hid : ∀ l : list Ascii.ascii,
            (Ascii.ascii_of_N ∘ Ascii.N_of_ascii) <$> l = l).
  { intros l. induction l as [|c l IH]; [done|].
    rewrite fmap_cons, IH. simpl. by rewrite Ascii.ascii_N_embedding. }
  rewrite !Hid in H.
  apply (f_equal String.string_of_list_ascii) in H.
  by rewrite !String.string_of_list_ascii_of_string in H.
Qed.

Lemma hex_digit_range (d : N) :
  (d < 16)%N → (48 <= hex_digit d <= 102)%N.
Proof. unfold hex_digit. intros H. destruct (d <? 10)%N eqn:E; lia. Qed.

(** X6. Placeholder ids made at different milliseconds are different, and a
    placeholder id is never the text of a uuid, so it cannot be the id of
    a stored message. *)
Theorem placeholder_ids_are_apart :
  (∀ a b, temp_id a = temp_id b → a = b)
  ∧ (∀ now u, temp_id now ≠ uuid_text u).
Proof.
  split.
  - intros a b H. unfold temp_id in H. apply app_inv_head in H.
    apply lit_inj in H. by apply (inj pretty).
  - intros now u H. apply (f_equal head) in H.
    unfold temp_id, uuid_text in H. simpl in H. injection H as H.
    pose proof (hex_digit_range ((u / 16 ^ 31) mod 16)) as Hr.
    assert ((u / 16 ^ 31) mod 16 < 16)%N by (apply N.mod_lt; lia).
    change (N.pos (116%positive)) with 116%N in H. lia.
Qed.

Lemma submit_guard_witness :
  handleSend (Some Samples.me) 3 4 [] Failed
    (setNewMessage (lit "  ") Samples.chat)
  = setNewMessage (lit "  ") Samples.chat.
Proof.
  destruct (submit_guard (Some Samples.me) 3 4 [] Failed
              (setNewMessage (lit "  ") Samples.chat)) as (Hiff & Hsame & Hblank).
  apply Hsame, Hiff. left. apply Hblank. left. repeat constructor.
Defined.

End ChatWindowMore.

(** ** The schema, continued *)

Module SchemaFacts.

Import Schema.

Lemma normalize_id (NEW : Conversation.t) :
  Conversation.id (normalize_conversation_users NEW) = Conversation.id NEW.
Proof.
  unfold normalize_conversation_users.
  by destruct (Conversation.user2_id NEW <? Conversation.user1_id NEW)%N.
Qed.


(** X7. The trigger stores the same row whichever of the two orders the
    client supplies; the row it returns has its users in ascending order,
    and running it on its own result changes nothing. *)
Theorem trigger_is_order_blind (g a b : uuid) :
  normalize_conversation_users (Conversation.mk g a b)
  = normalize_conversation_users (Conversation.mk g b a)
  ∧ (Conversation.user1_id (normalize_conversation_users (Conversation.mk g a b))
     <= Conversation.user2_id (normalize_conversation_users (Conversation.mk g a b)))%N
  ∧ normalize_conversation_users
      (normalize_conversation_users (Conversation.mk g a b))
    = normalize_conversation_users (Conversation.mk g a b).
Proof.
  unfold normalize_conversation_users. simpl.
  destruct (N.lt_trichotomy a b) as [H|[->|H]].
  - assert (E1 : (b <? a)%N = false) by (apply N.ltb_ge; lia).
    assert (E2 : (a <? b)%N = true) by (by apply N.ltb_lt).
    rewrite E1, E2. simpl. rewrite E1. split; [done|]. split; [lia|done].
  - rewrite N.ltb_irrefl. simpl. rewrite N.ltb_irrefl.
    split; [done|]. split; [lia|done].
  - assert (E1 : (b <? a)%N = true) by (by apply N.ltb_lt).
    assert (E2 : (a <? b)%N = false) by (apply N.ltb_ge; lia).
    rewrite E1, E2. simpl. rewrite E2. split; [done|]. split; [lia|done].
Qed.





(** *** Row-level security *)

Lemma NoDup_fmap_eq {A B} (f : A → B) (l : list A) (x y : A) :
  NoDup (f <$> l) → x ∈ l → y ∈ l → f x = f y → x = y.
Proof.
  induction l as [|z l IH]; intros Hnd Hx Hy Hf; [by apply elem_of_nil in Hx|].
  rewrite fmap_cons in Hnd. apply NoDup_cons in Hnd as [Hz Hnd].
  apply elem_of_cons in Hx as [->|Hx]; apply elem_of_cons in Hy as [->|Hy].
  - done.
  - destruct Hz. rewrite Hf. apply list_elem_of_fmap. by exists y.
  - destruct Hz. rewrite <- Hf. apply list_elem_of_fmap. by exists x.
  - by apply IH.
Qed.

(** With [user_id] unique an identity has at most one profile. *)
Lemma own_profiles_unique (uid : uuid) (db : DB) (x y : uuid) :
  NoDup (ProfileRow.user_id <$> profiles db) →
  x ∈ own_profiles uid db → y ∈ own_profiles uid db → x = y.
Proof.
  unfold own_profiles. intros Hnd Hx Hy.
  apply list_elem_of_fmap in Hx as (r1 & -> & H1).
  apply list_elem_of_fmap in Hy as (r2 & -> & H2).
  apply list_elem_of_filter in H1 as [E1 H1].
  apply list_elem_of_filter in H2 as [E2 H2].
  f_equal. apply (NoDup_fmap_eq ProfileRow.user_id (profiles db)); try done.
  congruence.
Qed.

(** X9. The insert policy on [messages] admits a row only when its sender is
    one of the two users of its conversation: the caller has to be in the
    conversation and the sender has to be the caller's profile, and with
    [user_id] unique the caller has one profile only. *)
Theorem policy_admits_parties_only (uid : uuid) (db : DB) (m : Message.t) :
  NoDup (ProfileRow.user_id <$> profiles db) →
  messages_insert_own uid db m →
  ∃ c, c ∈ conversations db
       ∧ Conversation.id c = Message.conversation_id m
       ∧ (Message.sender_id m = Conversation.user1_id c
          ∨ Message.sender_id m = Conversation.user2_id c).
Proof.
  intros Hnd [Hconv Hsender]. unfold own_conversations in Hconv.
  apply list_elem_of_fmap in Hconv as (c & Hid & Hc).
  apply list_elem_of_filter in Hc as [Hown Hc].
  exists c. split; [done|]. split; [done|].
  destruct Hown as [H|H]; [left|right];
    by apply (own_profiles_unique uid db).
Qed.

Lemma policy_admits_parties_only_witness :
  ∃ c, c ∈ conversations (Samples.bob_first Samples.db0)
       ∧ Conversation.id c = 100
       ∧ (2 = Conversation.user1_id c ∨ 2 = Conversation.user2_id c).
Proof.
  apply (policy_admits_parties_only 12 (Samples.bob_first Samples.db0)
           (Message.mk (lit "a9") 100 2 (lit "hi") 30)).
  - apply (bool_decide_unpack _). reflexivity.
  - apply (bool_decide_unpack _). reflexivity.
Defined.

Lemma filter_filter_implied {A} (P Q : A → Prop)
    `{!∀ x, Decision (P x)} `{!∀ x, Decision (Q x)} (l : list A) :
  (∀ x, x ∈ l → P x → Q x) → filter P (filter Q l) = filter P l.
Proof.
  induction l as [|x l IH]; intros Himp; [done|].
  rewrite !(filter_cons _ x).
  assert (IH' : filter P (filter Q l) = filter P l).
  { apply IH. intros y Hy. apply Himp. by apply list_elem_of_further. }
  destruct (decide (Q x)) as [HQ|HQ].
  - rewrite filter_cons. by rewrite IH'.
  - rewrite IH'. destruct (decide (P x)) as [HP|HP]; [|done].
    destruct HQ. apply Himp; [apply list_elem_of_here|done].
Qed.

(** X10. For the caller's own profile the policies change nothing of what
    [initChat] asks: the lookup of its pair with any other user gets the
    same answer with the SELECT policy applied, the row it would insert
    passes the WITH CHECK in whichever order the trigger leaves it, and the
    page of a conversation of the pair is the same with the policy on
    [messages] applied. *)
Theorem policies_let_own_pair_through (uid me other : uuid) (db : DB) :
  me ∈ own_profiles uid db →
  select_conversation_as uid me other db = select_conversation me other db
  ∧ (∀ g, conversations_own uid db
            (normalize_conversation_users (Conversation.mk g me other)))
  ∧ (∀ c, c ∈ conversations db → either_order me other c →
          select_messages_as uid (Conversation.id c) db
          = select_messages (Conversation.id c) db).
Proof.
  intros Hme.
  assert (Hown : ∀ c, either_order me other c → conversations_own uid db c).
  { intros c [[<- _]|[_ <-]]; [by left|by right]. }
  split; [|split].
  - unfold select_conversation_as, select_conversation.
    rewrite filter_filter_implied; [done|]. intros c _. apply Hown.
  - intros g. apply Hown.
    apply (proj1 (proj2 (ChatWindowFacts.normalize_cases g me other))).
  - intros c Hc Hm. unfold select_messages_as, select_messages.
    rewrite filter_filter_implied; [done|].
    intros m _ Hconv. unfold messages_select_own, own_conversations.
    rewrite Hconv. apply list_elem_of_fmap. exists c. split; [done|].
    apply list_elem_of_filter. split; [by apply Hown|done].
Qed.

Lemma policies_let_own_pair_through_witness :
  select_conversation_as 11 1 2 (Samples.bob_first Samples.db0) = [100].
Proof.
  destruct (policies_let_own_pair_through 11 1 2 (Samples.bob_first Samples.db0))
    as [H _]; [|by rewrite H].
  apply list_elem_of_here.
Defined.

(** *** Profile provisioning *)

Lemma insert_profile_inv (g : uuid) (now : instant) (user_id : uuid)
    (email username : option jsstring) (db db' : DB) :
  insert_profile g now user_id email username db = inr db' →
  ∃ e u, email = Some e ∧ username = Some u
    ∧ (g ∉ ProfileRow.id <$> profiles db)
    ∧ (user_id ∉ ProfileRow.user_id <$> profiles db)
    ∧ (Some u ∉ ProfileRow.username <$> profiles db)
    ∧ (Some e ∉ ProfileRow.email <$> profiles db)
    ∧ db' = mkDB (profiles db
                    ++ [ProfileRow.mk g user_id (Some u) (Some e) (Some now)])
              (conversations db) (messages db).
Proof.
  unfold insert_profile. destruct email as [e|], username as [u|]; try done.
  repeat (case_bool_decide; [done|]). intros [= <-]. by exists e, u.
Qed.

(** X11. A profile the trigger stored keeps the table within its constraints:
    ids, identities, user names and e-mail addresses stay unique and no
    name or address is null; the rows stored before are untouched, and no
    conversation or message is. *)
Theorem provisioning_keeps_profiles_unique (NEW : AuthUser) (g : uuid)
    (now : instant) (db db' : DB) :
  profiles_consistent db →
  handle_new_user NEW g now db = inr db' →
  profiles_consistent db'
  ∧ profiles db `prefix_of` profiles db'
  ∧ conversations db' = conversations db
  ∧ messages db' = messages db.
Proof.
  intros (Hid & Huid & Hname & Hmail & Hset) Hins.
  apply insert_profile_inv in Hins
    as (e & u & He & Hu & Hg & Hfresh & Hu' & He' & ->).
  split; [|split; [by apply prefix_app_r|done]].
  unfold profiles_consistent. simpl. rewrite !fmap_app. simpl.
  repeat split;
    try (apply NoDup_app; split; [done|]; split; [|apply NoDup_singleton];
         intros x Hx ->%list_elem_of_singleton; done).
  apply Forall_app. split; [done|]. apply Forall_singleton. split; by eexists.
Qed.

Lemma provisioning_keeps_profiles_unique_witness :
  ∃ db', handle_new_user MoreSamples.carol 3 77 MoreSamples.db1 = inr db'
         ∧ profiles_consistent db'.
Proof.
  eexists. split; [vm_compute; reflexivity|].
  refine (proj1 (provisioning_keeps_profiles_unique MoreSamples.carol 3 77
                   MoreSamples.db1 _ _ _)); [|vm_compute; reflexivity].
  repeat split; try apply NoDup_singleton.
  apply Forall_singleton. split; by eexists.
Defined.

Lemma uuid_text_prefix (u : uuid) : take 8 (uuid_text u) = uuid_text_prefix8 u.
Proof. reflexivity. Qed.

End SchemaFacts.

(** ** The resolver and the first page, continued *)

Module ResolverMore.

Import Schema ChatWindow.




(** X13. However the race between the lookup and the insert goes, [initChat]
    leaves the table within its constraints: when they hold before the
    call and after what the other clients committed meanwhile, they hold
    after the call, and the table has at most one row for the pair. *)
Theorem race_keeps_pairs_unique (me other g : uuid) (rivals : DB → DB)
    (db : DB) (st : State) :
  consistent db →
  consistent (rivals db) →
  consistent (initChat me other g rivals id db st).1
  ∧ (length (filter (either_order me other)
               (conversations (initChat me other g rivals id db st).1)) ≤ 1)%nat.
Proof.
  intros Hdb Hrivals.
  assert (Hc : consistent (initChat me other g rivals id db st).1).
  { unfold initChat.
    destruct (select_conversation me other db) as [|c0 rest]; [|done].
    destruct (insert_conversation g me other (rivals db))
      as [err|[convId db1]] eqn:Hins; [done|]. simpl.
    by apply (ChatWindowFacts.insert_conversation_consistent g me other
                (rivals db) db1 convId). }
  split; [done|]. by apply ChatWindowFacts.at_most_one_match.
Qed.

Lemma race_keeps_pairs_unique_witness :
  consistent (initChat 1 2 101 Samples.bob_first id Samples.db0 initial).1.
Proof.
  refine (proj1 (race_keeps_pairs_unique 1 2 101 Samples.bob_first
                   Samples.db0 initial _ _));
    apply (bool_decide_unpack _); reflexivity.
Defined.

Lemma initChat_hasInitialized (me other g : uuid) (rivals later : DB → DB)
    (db : DB) (st : State) :
  hasInitialized (initChat me other g rivals later db st).2 = hasInitialized st.
Proof.
  unfold initChat.
  destruct (select_conversation me other db); [|done].
  by destruct (insert_conversation g me other (rivals db)) as [?|[? ?]].
Qed.

(** X14. The effect starts [initChat] once: after a run with a profile the
    guard ref is set, and a further run, for whatever profile and user,
    asks nothing of the database and leaves the state as it is. Without a
    profile the effect does nothing. *)
Theorem initEffect_runs_once (p : Profile.t) (otherUser : Profile.t) (g : uuid)
    (rivals later : DB → DB) (db : DB) (st : State) :
  let r := initEffect (Some p) otherUser g rivals later db st in
  hasInitialized r.2 = true
  ∧ (∀ profile' otherUser' g' rivals' later',
       initEffect profile' otherUser' g' rivals' later' r.1 r.2 = r)
  ∧ (∀ db0 st0, initEffect None otherUser g rivals later db0 st0 = (db0, st0)).
Proof.
  intros r.
  assert (Hset : hasInitialized r.2 = true).
  { subst r. unfold initEffect. destruct (hasInitialized st) eqn:E; [done|].
    by rewrite initChat_hasInitialized. }
  split; [exact Hset|]. split; [|done].
  intros profile' otherUser' g' rivals' later'. unfold initEffect at 1.
  destruct profile'; rewrite ?Hset; symmetry; apply surjective_pairing.
Qed.





(** After the cleanup no notification changes the state any more, and
    the effect's guard lets the next run through. *)
Lemma cleanup_closes_the_stream (pushed : list Message.t) (st : State) :
  onInserts pushed (initCleanup st) = initCleanup st
  ∧ messages (initCleanup st) = messages st
  ∧ hasInitialized (initCleanup st) = false.
Proof.
  split; [|done]. unfold onInserts.
  induction pushed as [|p pushed IH]; [done|]. simpl. exact IH.
Qed.

(** *** The first page *)

Lemma created_le_sorts (l : list Message.t) :
  StronglySorted created_le (merge_sort created_le l).
Proof.
  apply StronglySorted_merge_sort.
  - intros x y z. unfold created_le. lia.
  - intros x y. unfold created_le. lia.
Qed.

(** X16. The page [initChat] loads holds at most 100 messages, each a row of
    the table for the conversation asked for. It is the oldest part of the
    conversation: a message of the conversation that is left out is not
    earlier than any message of the page; and when the conversation has no
    more than 100 messages the page holds them all. *)
Theorem first_page_is_the_oldest (convId : uuid) (db : DB) :
  (length (select_messages convId db) ≤ 100)%nat
  ∧ Forall (λ m, m ∈ Schema.messages db ∧ Message.conversation_id m = convId)
      (select_messages convId db)
  ∧ (∀ m m', m ∈ select_messages convId db →
       m' ∈ Schema.messages db → Message.conversation_id m' = convId →
       m' ∉ select_messages convId db →
       created_le m m')
  ∧ ((length (filter (λ m, Message.conversation_id m = convId)
                (Schema.messages db)) ≤ 100)%nat →
     select_messages convId db
     ≡ₚ filter (λ m, Message.conversation_id m = convId) (Schema.messages db)).
Proof.
  unfold select_messages.
  set (rows := filter (λ m, Message.conversation_id m = convId)
                 (Schema.messages db)).
  set (sorted := merge_sort created_le rows).
  assert (Hperm : sorted ≡ₚ rows) by apply merge_sort_Permutation.
  assert (Hin : ∀ m, m ∈ sorted ↔ m ∈ Schema.messages db
                                   ∧ Message.conversation_id m = convId).
  { intros m. rewrite Hperm. unfold rows. rewrite list_elem_of_filter.
    tauto. }
  split; [|split; [|split]].
  - rewrite length_take. lia.
  - apply Forall_forall. intros m Hm. apply Hin.
    by apply (subseteq_take 100) in Hm.
  - intros m m' Hm Hm' Hconv Hout.
    assert (Hs : m' ∈ take 100 sorted ++ drop 100 sorted)
      by (rewrite take_drop; by apply Hin).
    apply elem_of_app in Hs as [Hs|Hs]; [done|].
    pose proof (created_le_sorts rows) as Hsorted. fold sorted in Hsorted.
    rewrite <- (take_drop 100 sorted) in Hsorted.
    by apply (StronglySorted_app_1_elem_of _ _ _ _ _ Hsorted).
  - intros Hlen. rewrite take_ge; [done|]. by rewrite Hperm.
Qed.

Lemma first_page_is_the_oldest_witness :
  select_messages 7 (mkDB [] [] [Samples.m1; Samples.m2; Samples.m3])
  ≡ₚ [Samples.m1; Samples.m2; Samples.m3].
Proof.
  apply (first_page_is_the_oldest 7
           (mkDB [] [] [Samples.m1; Samples.m2; Samples.m3])).
  simpl. lia.
Defined.

End ResolverMore.

(** ** The session provider, continued *)

Module AuthContextMore.

Import AuthContext.

Lemma fetchProfile_frame (backend : uuid → Settled) (now : instant)
    (userId : uuid) (st : State) :
  user (fetchProfile backend now userId st).2 = user st
  ∧ profile (fetchProfile backend now userId st).2 = profile st
  ∧ loading (fetchProfile backend now userId st).2 = loading st
  ∧ timer (fetchProfile backend now userId st).2 = timer st
  ∧ listener (fetchProfile backend now userId st).2 = listener st.
Proof.
  unfold fetchProfile. destruct (profileCache st !! userId); [done|].
  destruct (backend userId) as [r|]; [|done].
  destruct (throws r); [done|]. by destruct (data r).
Qed.

(** X17. A lookup never drops or changes an entry of the cache, asks the
    backend at most once, and asks it only when the id is not cached; it
    touches neither the published user and profile nor [loading]. *)
Theorem fetchProfile_never_forgets (backend : uuid → Settled) (now : instant)
    (userId : uuid) (st : State) :
  (∀ k p, profileCache st !! k = Some p →
          profileCache (fetchProfile backend now userId st).2 !! k = Some p)
  ∧ (fetches (fetchProfile backend now userId st).2
     = if bool_decide (is_Some (profileCache st !! userId))
       then fetches st else fetches st ++ [userId])
  ∧ user (fetchProfile backend now userId st).2 = user st
  ∧ profile (fetchProfile backend now userId st).2 = profile st
  ∧ loading (fetchProfile backend now userId st).2 = loading st.
Proof.
  destruct (fetchProfile_frame backend now userId st) as (Hu & Hp & Hl & _).
  split; [|split; [|done]].
  - intros k p Hk. unfold fetchProfile.
    destruct (profileCache st !! userId) eqn:Hhit; [done|].
    destruct (backend userId) as [r|]; [|done].
    destruct (throws r); [done|]. destruct (data r); [|done].
    simpl. rewrite lookup_insert_ne; [done|]. congruence.
  - unfold fetchProfile.
    destruct (profileCache st !! userId) eqn:Hhit.
    + by rewrite bool_decide_eq_true_2.
    + rewrite bool_decide_eq_false_2 by (by intros [? ?]).
      destruct (backend userId) as [r|]; [|done].
      destruct (throws r); [done|]. by destruct (data r).
Qed.

Lemma or_default_truthy (a : option jsstring) (b : jsstring) :
  truthy b = true → truthy (or_default a b) = true.
Proof.
  intros Hb. unfold or_default, or_else.
  destruct a as [s|]; [|done]. by destruct (truthy s) eqn:E.
Qed.

Lemma or_default_Some (s b : jsstring) :
  truthy s = true → or_default (Some s) b = s.
Proof. intros H. unfold or_default, or_else. by rewrite H. Qed.

Lemma or_else_Some (s : jsstring) (b : option jsstring) :
  truthy s = true → or_else (Some s) b = Some s.
Proof. intros H. unfold or_else. by rewrite H. Qed.

Lemma formatProfile_named (d : ProfileRow.t) (now : instant) :
  truthy (Profile.username (formatProfile d now)) = true.
Proof. by apply or_default_truthy. Qed.

Lemma fetchProfile_named (backend : uuid → Settled) (now : instant)
    (userId : uuid) (st : State) :
  named st →
  named (fetchProfile backend now userId st).2
  ∧ ∀ p, (fetchProfile backend now userId st).1 = Some p →
         truthy (Profile.username p) = true.
Proof.
  intros Hn. unfold fetchProfile.
  destruct (profileCache st !! userId) as [q|] eqn:Hhit.
  - split; [done|]. intros p [= <-]. by apply (Hn userId).
  - destruct (backend userId) as [r|]; [|done].
    destruct (throws r); [done|]. destruct (data r) as [d|]; [|done].
    split.
    + unfold named. simpl. apply map_Forall_insert_2; [|done].
      apply formatProfile_named.
    + intros p [= <-]. apply formatProfile_named.
Qed.

(** X18. When no cached profile has an empty user name, none has after
    [updateUserState], and the user and the profile it publishes carry the
    session's id in [user.id] and one and the same user name, which is not
    empty. *)
Theorem published_names_agree (backend : uuid → Settled) (now : instant)
    (u : SessionUser.t) (st : State) :
  named st →
  named (updateUserState backend now u st)
  ∧ ∃ usr prof,
      user (updateUserState backend now u st) = Some usr
      ∧ profile (updateUserState backend now u st) = Some prof
      ∧ User.id usr = SessionUser.id u
      ∧ User.username usr = Profile.username prof
      ∧ truthy (User.username usr) = true.
Proof.
  intros Hn. unfold updateUserState.
  destruct (fetchProfile_named backend now (SessionUser.id u) st Hn)
    as [Hn' Hp].
  destruct (fetchProfile backend now (SessionUser.id u) st) as [[p|] st1];
    simpl in Hn', Hp; cbv beta iota zeta.
  - assert (Hname : truthy (Profile.username p) = true) by (by apply Hp).
    change (Profile.username <$> Some p) with (Some (Profile.username p)).
    rewrite (or_else_Some _ _ Hname), (or_default_Some _ _ Hname).
    split; [done|]. by eexists _, p.
  - split; [done|]. eexists _, _. repeat split.
    by apply or_default_truthy.
Qed.

Lemma published_names_agree_witness :
  ∃ usr prof,
    user (updateUserState Samples.no_rows 5
            (SessionUser.mk 12 (Some (lit "bob@example.org"))) Samples.cached)
    = Some usr
    ∧ profile (updateUserState Samples.no_rows 5
                 (SessionUser.mk 12 (Some (lit "bob@example.org")))
                 Samples.cached) = Some prof
    ∧ User.id usr = 12
    ∧ User.username usr = Profile.username prof
    ∧ truthy (User.username usr) = true.
Proof.
  refine (proj2 (published_names_agree Samples.no_rows 5
                   (SessionUser.mk 12 (Some (lit "bob@example.org")))
                   Samples.cached _)).
  unfold named, Samples.cached. simpl. by apply map_Forall_singleton.
Defined.

(** *** Sign-up, from the trigger to the published profile *)

Lemma provisioned_reply (NEW : Schema.AuthUser) (g : uuid) (now : instant)
    (db db' : Schema.DB) :
  Schema.handle_new_user NEW g now db = inr db' →
  ∃ e, Schema.au_email NEW = Some e
    ∧ profiles_single db' (Schema.au_id NEW)
      = Resolved
          (mkReply
             (Some (ProfileRow.mk g (Schema.au_id NEW)
                      (Some (default (lit "user_"
                                      ++ Schema.uuid_text_prefix8 (Schema.au_id NEW))
                               (Schema.au_meta_username NEW)))
                      (Some e) (Some now)))
             None).
Proof.
  intros Hins. apply SchemaFacts.insert_profile_inv in Hins
    as (e & u & He & [= <-] & _ & Hfresh & _ & _ & ->).
  exists e. split; [done|]. unfold profiles_single. simpl.
  rewrite filter_app.
  assert (filter (λ d, ProfileRow.user_id d = Schema.au_id NEW)
            (Schema.profiles db) = []) as ->.
  { apply (proj2 (ChatWindowFacts.filter_empty_iff _ _)), Forall_forall.
    intros d Hd Heq. apply Hfresh. apply list_elem_of_fmap. by exists d. }
  by rewrite filter_cons, decide_True.
Qed.

Lemma updateUserState_found (backend : uuid → Settled) (now : instant)
    (u : SessionUser.t) (st st1 : State) (p : Profile.t) :
  fetchProfile backend now (SessionUser.id u) st = (Some p, st1) →
  truthy (Profile.username p) = true →
  updateUserState backend now u st
  = setProfile (Some p)
      (setUser
         (Some (User.mk (SessionUser.id u)
                  (or_default (SessionUser.email u) [])
                  (Profile.username p)))
         st1).
Proof.
  intros Hfetch Hname. unfold updateUserState. rewrite Hfetch.
  cbv beta iota zeta.
  change (Profile.username <$> Some p) with (Some (Profile.username p)).
  by rewrite (or_else_Some _ _ Hname), (or_default_Some _ _ Hname).
Qed.

Lemma updateUserState_missing (backend : uuid → Settled) (now : instant)
    (u : SessionUser.t) (st st1 : State) :
  fetchProfile backend now (SessionUser.id u) st = (None, st1) →
  updateUserState backend now u st
  = setProfile (Some (provisionalProfile u now))
      (setUser (Some (provisionalUser u)) st1).
Proof. intros Hfetch. unfold updateUserState. by rewrite Hfetch. Qed.

(** X19. A sign-up whose account the trigger provisioned publishes that row:
    [signUp] asks the backend once and ends with the profile of the row's
    id, the identity's id and e-mail address and the row's creation time,
    and with a user of the same name. The name is the one given at sign-up
    when that is not empty, and ["user_"] followed by the first eight
    hexadecimal digits of the identity's id when none was given. *)
Theorem signUp_publishes_the_provisioned_profile (NEW : Schema.AuthUser)
    (g : uuid) (now now' : instant) (db db' : Schema.DB) (st : State) :
  Schema.handle_new_user NEW g now db = inr db' →
  profileCache st !! Schema.au_id NEW = None →
  ∃ st' usr prof,
    signUp (inr (Some (SessionUser.mk (Schema.au_id NEW) (Schema.au_email NEW))))
      (profiles_single db') now' st = inr st'
    ∧ user st' = Some usr ∧ profile st' = Some prof
    ∧ fetches st' = fetches st ++ [Schema.au_id NEW]
    ∧ Profile.id prof = g
    ∧ Profile.user_id prof = Schema.au_id NEW
    ∧ Some (Profile.email prof) = Schema.au_email NEW
    ∧ Profile.created_at prof = now
    ∧ User.id usr = Schema.au_id NEW
    ∧ User.username usr = Profile.username prof
    ∧ (∀ s, Schema.au_meta_username NEW = Some s → truthy s = true →
            Profile.username prof = s)
    ∧ (Schema.au_meta_username NEW = None →
       Profile.username prof
       = lit "user_" ++ Schema.uuid_text_prefix8 (Schema.au_id NEW)).
Proof.
  intros Hins Hmiss.
  destruct (provisioned_reply NEW g now db db' Hins) as (e & He & Hreply).
  set (name := default (lit "user_" ++ Schema.uuid_text_prefix8 (Schema.au_id NEW))
                 (Schema.au_meta_username NEW)) in *.
  set (d := ProfileRow.mk g (Schema.au_id NEW) (Some name) (Some e) (Some now))
    in *.
  set (u := SessionUser.mk (Schema.au_id NEW) (Schema.au_email NEW)).
  assert (Hfetch :
    fetchProfile (profiles_single db') now' (SessionUser.id u) st
    = (Some (formatProfile d now'),
       setProfileCache
         (<[Schema.au_id NEW := formatProfile d now']> (profileCache st))
         (request (Schema.au_id NEW) st))).
  { rewrite AuthContextFacts.fetchProfile_miss by done.
    unfold u. cbn [SessionUser.id]. by rewrite Hreply. }
  unfold signUp.
  rewrite (updateUserState_found _ _ _ _ _ _ Hfetch (formatProfile_named _ _)).
  eexists _, _, (formatProfile d now').
  split; [reflexivity|]. split; [reflexivity|]. split; [reflexivity|].
  split; [reflexivity|]. split; [reflexivity|]. split; [reflexivity|].
  split.
  { rewrite He. f_equal. unfold formatProfile. cbn [Profile.email].
    unfold d. cbn [ProfileRow.email]. unfold or_default, or_else.
    by destruct e. }
  split; [reflexivity|]. split; [reflexivity|]. split; [reflexivity|].
  assert (Hn : ∀ s, name = s → truthy s = true →
                    Profile.username (formatProfile d now') = s).
  { intros s Hs Htruthy. unfold formatProfile. cbn [Profile.username].
    unfold d. cbn [ProfileRow.username ProfileRow.email]. rewrite Hs.
    by rewrite (or_else_Some _ _ Htruthy), (or_default_Some _ _ Htruthy). }
  split.
  - intros s Hs Htruthy. apply Hn; [|done]. unfold name. by rewrite Hs.
  - intros Hnone. apply Hn; [|done]. unfold name. by rewrite Hnone.
Qed.

Lemma signUp_publishes_the_provisioned_profile_witness :
  ∃ db' st' prof,
    Schema.handle_new_user MoreSamples.carol 3 77 MoreSamples.db1 = inr db'
    ∧ signUp (inr (Some (SessionUser.mk (Schema.au_id MoreSamples.carol)
                           (Schema.au_email MoreSamples.carol))))
        (profiles_single db') 80 initial = inr st'
    ∧ profile st' = Some prof
    ∧ Profile.username prof = lit "user_0000000d".
Proof.
  eexists. 
  assert (H : Schema.handle_new_user MoreSamples.carol 3 77 MoreSamples.db1
              = inr (Schema.mkDB
                       (Schema.profiles MoreSamples.db1
                          ++ [ProfileRow.mk 3 (Schema.au_id MoreSamples.carol)
                                (Some (lit "user_0000000d"))
                                (Some (lit "carol@example.org")) (Some 77)])
                       [] []))
    by (vm_compute; reflexivity).
  destruct (signUp_publishes_the_provisioned_profile MoreSamples.carol 3 77 80
              _ _ initial H (lookup_empty _))
    as (st' & usr & prof & Hup & _ & Hprof & _ & _ & _ & _ & _ & _ & _ & _ & Hdef).
  exists st', prof. split; [exact H|]. split; [exact Hup|].
  split; [exact Hprof|]. rewrite Hdef by reflexivity. vm_compute. reflexivity.
Defined.

(** *** Sign-in *)

Lemma updateUserState_loading (backend : uuid → Settled) (now : instant)
    (u : SessionUser.t) (st : State) :
  loading (updateUserState backend now u st) = loading st
  ∧ is_Some (user (updateUserState backend now u st)).
Proof.
  unfold updateUserState.
  destruct (fetchProfile_frame backend now (SessionUser.id u) st)
    as (_ & _ & Hl & _).
  destruct (fetchProfile backend now (SessionUser.id u) st) as [[p|] st1];
    simpl in *; by split.
Qed.

(** X20. [signIn] with a user in the reply ends loading and publishes a user
    and a provisional profile without asking the backend for anything, so
    the protected route shows the page at once; the name is the part of
    the e-mail address before the [@], or ["User"]. When the profile fetch
    started in the background has ended, the page is still shown; when it
    brought no profile, the published user is the same and the profile is
    the provisional one with a new time stamp. *)
Theorem signIn_shows_the_page_at_once (u : SessionUser.t) (now now' : instant)
    (backend : uuid → Settled) (st : State) :
  ∃ st1,
    signIn (inr (Some u)) now st = inr st1
    ∧ loading st1 = false
    ∧ fetches st1 = fetches st
    ∧ user st1 = Some (provisionalUser u)
    ∧ profile st1 = Some (provisionalProfile u now)
    ∧ AuthProvider st1 ProtectedRoute = Page
    ∧ AuthProvider (signIn_background backend now' u st1) ProtectedRoute = Page
    ∧ ((fetchProfile backend now' (SessionUser.id u) st1).1 = None →
       user (signIn_background backend now' u st1) = Some (provisionalUser u)
       ∧ profile (signIn_background backend now' u st1)
         = Some (provisionalProfile u now')).
Proof.
  eexists. split; [reflexivity|]. split; [reflexivity|].
  split; [reflexivity|]. split; [reflexivity|]. split; [reflexivity|].
  split; [reflexivity|].
  set (st1 := setLoading false _).
  split.
  - unfold signIn_background, AuthProvider, ProtectedRoute.
    destruct (updateUserState_loading backend now' u st1) as [-> [usr ->]].
    reflexivity.
  - intros Hnone. unfold signIn_background.
    destruct (fetchProfile backend now' (SessionUser.id u) st1)
      as [res st2] eqn:Hfetch.
    simpl in Hnone. subst res.
    by rewrite (updateUserState_missing _ _ _ _ _ Hfetch).
Qed.

(** *** What the protected route shows *)

(** X21. Under the provider the protected route never shows its own spinner:
    while loading nothing is rendered at all. The page is shown exactly
    when loading is over and a user is published; after a sign-out,
    whether it comes from [signOut] or from a notification to the
    listener, a provider that was past loading sends the route home. *)
Theorem protected_route_views (st : State) :
  AuthProvider st ProtectedRoute ≠ Spinner
  ∧ (AuthProvider st ProtectedRoute = Page
     ↔ loading st = false ∧ is_Some (user st))
  ∧ (∀ st', signOut None st = inr st' → loading st = false →
            AuthProvider st' ProtectedRoute = ToHome)
  ∧ (∀ now backend, listener st = true →
       AuthProvider (step (AuthStateChange now None backend) st) ProtectedRoute
       = ToHome).
Proof.
  unfold AuthProvider, ProtectedRoute. split; [|split; [|split]].
  - destruct (loading st); [done|]. by destruct (user st).
  - destruct (loading st), (user st) as [usr|]; split; try done;
      try (by intros [? ?]); try (by intros [_ [? ?]]).
  - intros st' [= <-] Hl. simpl. by rewrite Hl.
  - intros now backend Hl. simpl. by rewrite Hl.
Qed.

Lemma protected_route_views_witness :
  AuthProvider (setProfileCache ∅ (setProfile None (setUser None
                  (setLoading false Samples.cached)))) ProtectedRoute
  = ToHome.
Proof.
  destruct (protected_route_views (setLoading false Samples.cached))
    as (_ & _ & H & _).
  apply H; reflexivity.
Defined.

(** *** Loading, the timer and the cleanup *)

(** X22. [loading] never goes back: once it is [false] it is [false] after
    every further sequence of events, cleanups and stale completions
    included. *)
Theorem loading_never_returns (evs1 evs2 : list Event) (st : State) :
  loading (run evs1 st) = false →
  loading (run (evs1 ++ evs2) st) = false.
Proof.
  intros H. unfold run. rewrite foldl_app.
  by apply AuthContextFacts.run_keeps_ready.
Qed.

Lemma loading_never_returns_witness :
  loading (run ([Turn 2500] ++ [Cleanup 1; Turn 9000])
             (bootstrapEffect 500 false initial)) = false.
Proof.
  apply (loading_never_returns [Turn 2500] [Cleanup 1; Turn 9000]).
  reflexivity.
Defined.

(** X23. Whatever the backend does and whenever it does it, a provider that
    stays mounted until the first turn of the event loop 2000 ms or more
    after its effect ran is past loading at that turn and ever after. *)
Theorem deadline_holds_for_any_backend (t0 t : instant) (listenerThrows : bool)
    (evs evs' : list Event) (st : State) :
  sessionChecked st = false →
  Forall mounted evs →
  (t0 + 2000 <= t)%N →
  loading (run (evs ++ Turn t :: evs') (bootstrapEffect t0 listenerThrows st))
  = false.
Proof.
  intros Hfirst Hevs Ht.
  change (evs ++ Turn t :: evs') with (evs ++ [Turn t] ++ evs').
  rewrite app_assoc. unfold run. rewrite foldl_app.
  apply AuthContextFacts.run_keeps_ready.
  by apply AuthContextFacts.bootstrap_deadline.
Qed.

Lemma deadline_holds_for_any_backend_witness :
  loading (run ([AuthStateChange 600 None Samples.no_rows]
                ++ Turn 2600 :: [Cleanup 1])
             (bootstrapEffect 500 false initial)) = false.
Proof.
  apply (deadline_holds_for_any_backend 500 2600 false
           [AuthStateChange 600 None Samples.no_rows] [Cleanup 1] initial).
  - reflexivity.
  - repeat constructor.
  - lia.
Defined.

(** X24. The cleanup of the run that armed the timer disarms it, unregisters
    the listener and resets the guard; after it neither a turn of the
    event loop nor a notification of the auth client changes the state. *)
Theorem cleanup_silences_timer_and_listener (tid : N) (due : instant)
    (evs : list Event) (st : State) :
  timer st = Some (tid, due) →
  Forall (λ ev, match ev with
                | Turn _ | AuthStateChange _ _ _ => True
                | _ => False
                end) evs →
  timer (step (Cleanup tid) st) = None
  ∧ listener (step (Cleanup tid) st) = false
  ∧ sessionChecked (step (Cleanup tid) st) = false
  ∧ run evs (step (Cleanup tid) st) = step (Cleanup tid) st.
Proof.
  intros Htimer Hevs.
  assert (Ht : timer (step (Cleanup tid) st) = None).
  { simpl. unfold clearTimeout. rewrite Htimer. by rewrite N.eqb_refl. }
  split; [done|]. split; [done|]. split; [done|].
  set (st' := step (Cleanup tid) st) in *.
  assert (Hl : listener st' = false) by done.
  clearbody st'.
  assert (Hstep : ∀ ev, match ev with
                        | Turn _ | AuthStateChange _ _ _ => True
                        | _ => False
                        end → step ev st' = st').
  { intros [now| |now session backend|] Hev; try done; simpl.
    - unfold runTimers. by rewrite Ht.
    - by rewrite Hl. }
  unfold run. induction Hevs as [|ev evs Hev _ IH]; [done|].
  simpl. by rewrite (Hstep ev Hev).
Qed.

Lemma cleanup_silences_timer_and_listener_witness :
  run [Turn 9000; AuthStateChange 9001 None Samples.no_rows]
    (step (Cleanup 1) (bootstrapEffect 500 false initial))
  = step (Cleanup 1) (bootstrapEffect 500 false initial).
Proof.
  apply (cleanup_silences_timer_and_listener 1 2500
           [Turn 9000; AuthStateChange 9001 None Samples.no_rows]
           (bootstrapEffect 500 false initial)).
  - reflexivity.
  - repeat constructor.
Defined.

Lemma fetchProfile_never_forgets_witness :
  profileCache (fetchProfile (profiles_single Samples.db0) 5 12 Samples.cached).2
    !! 11 = Some Samples.me.
Proof.
  apply (fetchProfile_never_forgets (profiles_single Samples.db0) 5 12
           Samples.cached).
  apply lookup_singleton_eq.
Defined.

Lemma signIn_shows_the_page_at_once_witness :
  profile (signIn_background Samples.no_rows 9
             (SessionUser.mk 12 (Some (lit "bob@example.org")))
             (setLoading false
                (setProfile
                   (Some (provisionalProfile
                            (SessionUser.mk 12 (Some (lit "bob@example.org"))) 5))
                   (setUser
                      (Some (provisionalUser
                               (SessionUser.mk 12 (Some (lit "bob@example.org")))))
                      initial))))
  = Some (Profile.mk 12 12 (lit "bob") (lit "bob@example.org") 9).
Proof.
  destruct (signIn_shows_the_page_at_once
              (SessionUser.mk 12 (Some (lit "bob@example.org"))) 5 9
              Samples.no_rows initial)
    as (st1 & Hin & _ & _ & _ & _ & _ & _ & Hbg).
  injection Hin as <-. apply Hbg. reflexivity.
Defined.

End AuthContextMore.

(** ** The directory and its search *)

Module UserListFacts.

Import UserList.

Lemma List_filter_sublist {A} (f : A → bool) (l : list A) :
  sublist (List.filter f l) l.
Proof.
  induction l as [|x l IH]; [constructor|]. simpl.
  destruct (f x); by constructor.
Qed.

Section Locale.

Context (toLowerCase : jsstring → jsstring).
Context (username_le : relation ProfileRow.t).
Context `{!∀ x y, Decision (username_le x y)}.

(** X25. The directory the effect loads from the table leaves out the acting
    profile and nobody else: every other row of [profiles] is in it, once.
    The list shown and the cache the search filters are this same list,
    loading is over, and the effect does not fetch again. *)
Theorem directory_excludes_the_caller (p : Profile.t) (db : Schema.DB) (st : State) :
  hasFetched st = false →
  let st' :=
    fetchEffect (Some p)
      (λ me, UsersData (Some (select_others username_le me db))) st in
  users st' = allUsersCache st'
  ∧ loading st' = false
  ∧ Forall (λ r, ProfileRow.id r ≠ Profile.id p) (users st')
  ∧ users st' ≡ₚ filter (λ r, ProfileRow.id r ≠ Profile.id p) (Schema.profiles db)
  ∧ (∀ profile' backend', fetchEffect profile' backend' st' = st').
Proof.
  intros Hfirst. unfold fetchEffect at 1. rewrite Hfirst. simpl.
  assert (Hperm : select_others username_le (Profile.id p) db
                  ≡ₚ filter (λ r, ProfileRow.id r ≠ Profile.id p)
                       (Schema.profiles db))
    by apply merge_sort_Permutation.
  split; [done|]. split; [done|]. split; [|split; [done|]].
  - apply Forall_forall. intros r Hr. rewrite Hperm in Hr.
    by apply list_elem_of_filter in Hr as [? _].
  - intros profile' backend'. unfold fetchEffect. by destruct profile'.
Qed.

(** X26. The search never shows anything that is not in the cache, keeps the
    cache's order and leaves the cache as it is. With a search text that
    is not blank the list shown holds exactly the cached users whose user
    name or e-mail address, in lower case, contains the trimmed text in
    lower case; with a blank one it is the whole cache again. *)
Theorem search_shows_part_of_the_cache (text : jsstring) (st : State) :
  allUsersCache (applySearch toLowerCase text st) = allUsersCache st
  ∧ sublist (users (applySearch toLowerCase text st)) (allUsersCache st)
  ∧ (truthy (toLowerCase (trim text)) = true →
     ∀ u, u ∈ users (applySearch toLowerCase text st)
          ↔ u ∈ allUsersCache st
            ∧ matches toLowerCase (toLowerCase (trim text)) u = true)
  ∧ (toLowerCase [] = [] →
     Forall (λ c, isWhiteSpace c = true) text →
     users (applySearch toLowerCase text st) = allUsersCache st).
Proof.
  unfold applySearch.
  destruct (truthy (toLowerCase (trim text))) eqn:E; simpl.
  - split; [done|]. split; [apply List_filter_sublist|]. split.
    + intros _ u. rewrite !list_elem_of_In, filter_In. done.
    + intros Hlow Hblank. apply JsMore.trim_nil_iff in Hblank.
      by rewrite Hblank, Hlow in E.
  - split; [done|]. split; [done|]. split; [done|]. done.
Qed.

Lemma typing_frame (evs : list Event) (st : State) :
  typing (fst <$> debounceTimer st) (search st) evs →
  users (run toLowerCase evs st) = users st
  ∧ allUsersCache (run toLowerCase evs st) = allUsersCache st.
Proof.
  revert st. unfold run.
  induction evs as [|ev evs IH]; intros st Hty; [done|].
  destruct ev as [now t|now|reply]; [| |done]; cbn [foldl step]; simpl in Hty.
  - unfold onChange. destruct (bool_decide (t = search st)) eqn:Ht.
    + by apply IH.
    + destruct (IH (setDebounceTimer (Some (now + DEBOUNCE, t)) (setSearch t st)))
        as [-> ->]; done.
  - destruct Hty as [Hdue Hty]. unfold runTimers.
    destruct (debounceTimer st) as [[due text]|] eqn:Htimer.
    + simpl in Hdue.
      destruct (due <=? now)%N eqn:E; [apply N.leb_le in E; lia|].
      apply IH. by rewrite Htimer.
    + apply IH. by rewrite Htimer.
Qed.

Lemma early_turns (turns : list Event) (due : instant) (text : jsstring)
    (st : State) :
  debounceTimer st = Some (due, text) →
  Forall (λ ev, ∃ t', ev = Turn t' ∧ (t' < due)%N) turns →
  run toLowerCase turns st = st.
Proof.
  intros Htimer. unfold run.
  induction 1 as [|ev turns (t' & -> & Ht') _ IH]; [done|]. simpl.
  unfold runTimers. rewrite Htimer.
  destruct (due <=? t')%N eqn:E; [apply N.leb_le in E; lia|]. exact IH.
Qed.

(** X27. While keystrokes come faster than the delay the list shown is not
    touched, whatever was typed; and when the last keystroke is followed
    by a pause of the delay or more, the list is the cache filtered by the
    text of that last keystroke: no text typed before it is ever applied. *)
Theorem debounce_applies_the_last_text (evs turns : list Event)
    (now t : instant) (text : jsstring) (st : State) :
  typing (fst <$> debounceTimer st) (search st) evs →
  text ≠ search (run toLowerCase evs st) →
  Forall (λ ev, ∃ t', ev = Turn t' ∧ (t' < now + DEBOUNCE)%N) turns →
  (now + DEBOUNCE <= t)%N →
  users (run toLowerCase evs st) = users st
  ∧ users (run toLowerCase (evs ++ Key now text :: turns) st) = users st
  ∧ users (run toLowerCase (evs ++ Key now text :: turns ++ [Turn t]) st)
    = users (applySearch toLowerCase text st).
Proof.
  intros Hty Htext Hturns Ht.
  destruct (typing_frame evs st Hty) as [Husers Hcache].
  set (s0 := run toLowerCase evs st) in *.
  set (s1 := setDebounceTimer (Some (now + DEBOUNCE, text)) (setSearch text s0)).
  assert (Hkey : run toLowerCase (evs ++ Key now text :: turns) st = s1).
  { unfold run. rewrite foldl_app. fold (run toLowerCase evs st). fold s0.
    simpl. unfold onChange. rewrite bool_decide_eq_false_2 by done.
    by apply (early_turns turns (now + DEBOUNCE) text). }
  split; [done|]. split; [by rewrite Hkey|].
  change (evs ++ Key now text :: turns ++ [Turn t])
    with (evs ++ (Key now text :: turns) ++ [Turn t]).
  rewrite app_assoc. unfold run. rewrite foldl_snoc.
  fold (run toLowerCase (evs ++ Key now text :: turns) st). rewrite Hkey.
  simpl. unfold runTimers. simpl.
  destruct (now + DEBOUNCE <=? t)%N eqn:E; [|apply N.leb_gt in E; lia].
  unfold applySearch. simpl. rewrite Hcache.
  by destruct (truthy (toLowerCase (trim text))).
Qed.

End Locale.

Lemma directory_excludes_the_caller_witness :
  users (fetchEffect (Some Samples.me)
           (λ me, UsersData (Some (select_others MoreSamples.by_id me Samples.db0)))
           initial)
  ≡ₚ [Samples.bob].
Proof.
  refine (proj1 (proj2 (proj2 (proj2
            (directory_excludes_the_caller MoreSamples.by_id Samples.me
               Samples.db0 initial _))))).
  reflexivity.
Defined.

Lemma search_shows_part_of_the_cache_witness :
  Samples.bob ∈ users (applySearch MoreSamples.ascii_lower (lit " BO ")
                         MoreSamples.directory).
Proof.
  destruct (search_shows_part_of_the_cache MoreSamples.ascii_lower (lit " BO ")
              MoreSamples.directory) as (_ & _ & H & _).
  apply H; [reflexivity|]. split; [|reflexivity].
  apply list_elem_of_further, list_elem_of_here.
Defined.

Lemma debounce_applies_the_last_text_witness :
  users (run MoreSamples.ascii_lower
           ([Key 0 (lit "a"); Turn 100; Key 150 (lit "al")]
            ++ Key 300 (lit "ali") :: [Turn 400] ++ [Turn 500])
           MoreSamples.directory)
  = [Samples.alice].
Proof.
  refine (eq_trans
            (proj2 (proj2
               (debounce_applies_the_last_text MoreSamples.ascii_lower
                  [Key 0 (lit "a"); Turn 100; Key 150 (lit "al")] [Turn 400]
                  300 500 (lit "ali") MoreSamples.directory _ _ _ _)))
            _).
  - simpl. split; [reflexivity|exact I].
  - discriminate.
  - repeat constructor. exists 400. split; [reflexivity|reflexivity].
  - discriminate.
  - reflexivity.
Defined.

End UserListFacts.
